(** * langport worker core: a shallow embedding of
      [langport/core/base_worker.py] and [langport/core/generation_worker.py].

    Python floats are IEEE binary64 numbers and are embedded as Rocq's
    primitive floats, so that the comparisons of the source
    ([temperature >= 1e-5], [top_p < 1.0], ...) are the source's own.
    Python ints are [Z]; dictionaries are [gmap]s; the Python lists that are
    shared by reference (the per-task result channels) live in an explicit
    store of list objects. *)

From Stdlib Require Import ZArith Floats.PrimFloat.
From stdpp Require Import gmap strings list fin_maps.

Set Warnings "-inexact-float".
Local Open Scope Z_scope.

(** ** Data model *)

(** [GenerationTask] (a [BaseWorkerTask] with the sampling parameters). *)
Record Task := {
  task_id : string;
  prompt : string;
  max_new_tokens : Z;
  temperature : float;
  repetition_penalty : float;
  top_p : float;
  top_k : Z;
}.

Record UsageInfo := {
  prompt_tokens : Z;
  total_tokens : Z;
  completion_tokens : Z;
}.

(** [BaseWorkerResult] and its subclass [GenerationWorkerResult]: the base
    class carries [task_id] and [type]; [text] and [usage] are present on
    generation results only. *)
Record WorkerResult := {
  r_task_id : string;
  r_type : string;
  r_text : option string;
  r_usage : option UsageInfo;
}.

Definition BaseWorkerResult (tid ty : string) : WorkerResult :=
  {| r_task_id := tid; r_type := ty; r_text := None; r_usage := None |}.

Definition GenerationWorkerResult (tid ty txt : string) (u : UsageInfo)
  : WorkerResult :=
  {| r_task_id := tid; r_type := ty; r_text := Some txt; r_usage := Some u |}.

(** The callbacks handed to [add_timer] in the source. *)
Inductive TimerFn := WorkerHeartBeat_fn | inference_generation_fn.

Record IntervalTimer := { interval : float; fn : TimerFn }.

(** [asyncio.Semaphore] as [get_queue_length] reads it: the private fields
    [_value] and [_waiters], either of which the source allows to be [None]. *)
Record Semaphore := {
  _value : option Z;
  _waiters : option (list nat);
}.

(** What the worker does to the outside world, in program order. *)
Inductive Effect :=
| TimerStart (name : string)
| TimerCancel (name : string)
| HttpPost (url : string).

Global Instance Effect_eq_dec : EqDecision Effect.
Proof. solve_decision. Defined.

Inductive Exn :=
| AssertionError | RequestException | KeyError | ZeroDivisionError
| RuntimeError | AttributeError.

(** How a call ends: it returns, or it raises with the state as mutated so far. *)
Inductive Outcome := Returned | Raised (e : Exn).

(** Python list objects are identified by their address. *)
Abbreviation loc := positive.

(** [BaseModelWorker]: the fields the scheduling and lifecycle code touches.
    [task_output] maps a task id to the list object that is its channel;
    [heap] holds the list objects; [trace] records the external effects. *)
Record Worker := {
  controller_addr : string;
  limit_model_concurrency : Z;
  stream_interval : Z;
  max_batch_size : Z;
  model_semaphore : option Semaphore;
  task_queue : list Task;
  task_output : gmap string loc;
  heap : gmap loc (list WorkerResult);
  timers : gmap string IntervalTimer;
  online : bool;
  trace : list Effect;
}.

Definition set_task_queue (q : list Task) (w : Worker) : Worker :=
  {| controller_addr := controller_addr w;
     limit_model_concurrency := limit_model_concurrency w;
     stream_interval := stream_interval w;
     max_batch_size := max_batch_size w;
     model_semaphore := model_semaphore w;
     task_queue := q;
     task_output := task_output w;
     heap := heap w;
     timers := timers w;
     online := online w;
     trace := trace w |}.

Definition set_task_output (o : gmap string loc) (w : Worker) : Worker :=
  {| controller_addr := controller_addr w;
     limit_model_concurrency := limit_model_concurrency w;
     stream_interval := stream_interval w;
     max_batch_size := max_batch_size w;
     model_semaphore := model_semaphore w;
     task_queue := task_queue w;
     task_output := o;
     heap := heap w;
     timers := timers w;
     online := online w;
     trace := trace w |}.

Definition set_heap (h : gmap loc (list WorkerResult)) (w : Worker) : Worker :=
  {| controller_addr := controller_addr w;
     limit_model_concurrency := limit_model_concurrency w;
     stream_interval := stream_interval w;
     max_batch_size := max_batch_size w;
     model_semaphore := model_semaphore w;
     task_queue := task_queue w;
     task_output := task_output w;
     heap := h;
     timers := timers w;
     online := online w;
     trace := trace w |}.

Definition set_timers (t : gmap string IntervalTimer) (w : Worker) : Worker :=
  {| controller_addr := controller_addr w;
     limit_model_concurrency := limit_model_concurrency w;
     stream_interval := stream_interval w;
     max_batch_size := max_batch_size w;
     model_semaphore := model_semaphore w;
     task_queue := task_queue w;
     task_output := task_output w;
     heap := heap w;
     timers := t;
     online := online w;
     trace := trace w |}.

Definition set_online (b : bool) (w : Worker) : Worker :=
  {| controller_addr := controller_addr w;
     limit_model_concurrency := limit_model_concurrency w;
     stream_interval := stream_interval w;
     max_batch_size := max_batch_size w;
     model_semaphore := model_semaphore w;
     task_queue := task_queue w;
     task_output := task_output w;
     heap := heap w;
     timers := timers w;
     online := b;
     trace := trace w |}.


(** Appends external effects to the trace. *)
Definition emit (es : list Effect) (w : Worker) : Worker :=
  {| controller_addr := controller_addr w;
     limit_model_concurrency := limit_model_concurrency w;
     stream_interval := stream_interval w;
     max_batch_size := max_batch_size w;
     model_semaphore := model_semaphore w;
     task_queue := task_queue w;
     task_output := task_output w;
     heap := heap w;
     timers := timers w;
     online := online w;
     trace := trace w ++ es |}.

(** [constants.py] *)
Definition WORKER_HEART_BEAT_INTERVAL : Z := 30.
Definition WORKER_HEART_BEAT_CHECK_INTERVAL : float := 5%float.
Definition WORKER_API_TIMEOUT : Z := 20.

(** ** Lifecycle: [start], [stop], timers and registration *)
Module Lifecycle.

(** The controller's answer to one POST: [Some code] is the HTTP status,
    [None] a transport failure raised by [requests.post]. *)
Definition Response := option Z.

Definition add_timer (name : string) (iv : float) (f : TimerFn) (w : Worker)
  : Worker * bool :=
  match timers w !! name with
  | Some _ => (w, false)
  | None =>
      let new_timer := {| interval := iv; fn := f |} in
      (emit [TimerStart name] (set_timers (<[name := new_timer]> (timers w)) w),
       true)
  end.

Definition remove_timer (name : string) (w : Worker) : Worker * bool :=
  match timers w !! name with
  | None => (w, false)
  | Some _ =>
      (set_timers (delete name (timers w)) (emit [TimerCancel name] w), true)
  end.

Definition register_url (w : Worker) : string :=
  controller_addr w +:+ "/register_worker".

Definition remove_url (w : Worker) : string :=
  controller_addr w +:+ "/remove_worker".

(** [requests.post(...)] followed by [assert r.status_code == 200]. *)
Definition post_and_assert (url : string) (r : Response) (w : Worker)
  : Worker * Outcome :=
  let w1 := emit [HttpPost url] w in
  match r with
  | None => (w1, Raised RequestException)
  | Some code => if code =? 200 then (w1, Returned)
                 else (w1, Raised AssertionError)
  end.

Definition register_to_controller (r : Response) (w : Worker)
  : Worker * Outcome :=
  post_and_assert (register_url w) r w.

Definition remove_from_controller (r : Response) (w : Worker)
  : Worker * Outcome :=
  post_and_assert (remove_url w) r w.

(** [start]: [r] is the controller's answer, consumed only if the
    registration call is made. *)
Definition start (r : Response) (w : Worker) : Worker * Outcome :=
  if online w then (w, Returned)
  else
    let w1 := (add_timer "heartbeat" WORKER_HEART_BEAT_CHECK_INTERVAL
                 WorkerHeartBeat_fn w).1 in
    match register_to_controller r w1 with
    | (w2, Returned) => (set_online true w2, Returned)
    | (w2, Raised e) => (w2, Raised e)
    end.

(** [stop]: every timer of the dictionary is cancelled, then the dictionary
    is cleared, then the worker deregisters. The trace lists the
    cancellations in the key order of the map, where the source goes
    through the dictionary in insertion order. *)
Definition stop (r : Response) (w : Worker) : Worker * Outcome :=
  if negb (online w) then (w, Returned)
  else
    let w1 := emit (TimerCancel <$> (map_to_list (timers w)).*1) w in
    let w2 := set_timers ∅ w1 in
    match remove_from_controller r w2 with
    | (w3, Returned) => (set_online false w3, Returned)
    | (w3, Raised e) => (w3, Raised e)
    end.

End Lifecycle.

(** ** Admission limiter and [get_queue_length] *)
Module Limiter.

Definition get_queue_length (w : Worker) : Z :=
  match model_semaphore w with
  | None => 0
  | Some s =>
      match _value s, _waiters s with
      | Some v, Some ws =>
          limit_model_concurrency w - v + Z.of_nat (length ws)
      | _, _ => 0
      end
  end.












End Limiter.

(** ** Task queue and result channels *)
Module Queue.

(** [add_task]: [self.task_output[task.task_id] = []] allocates a new list
    object and binds the task id to it. *)
Definition add_task (task : Task) (w : Worker) : Worker :=
  let w1 := set_task_queue (task_queue w ++ [task]) w in
  let l := fresh (dom (heap w1)) in
  set_task_output (<[task_id task := l]> (task_output w1))
    (set_heap (<[l := []]> (heap w1)) w1).

(** [push_task_result]: [None] stands for the [KeyError] of a task id with
    no channel (the state is then unchanged). *)
Definition push_task_result (tid : string) (response : WorkerResult)
    (w : Worker) : option Worker :=
  match task_output w !! tid with
  | None => None
  | Some l => Some (set_heap (alter (λ q, q ++ [response]) l (heap w)) w)
  end.

(** The [while] loop of [fetch_tasks]; every iteration pops the head of the
    queue, so the loop is structural in the queue. *)
Fixpoint fetch_loop (max_batch : Z) (task_batch queue : list Task)
  : list Task * list Task :=
  match queue with
  | [] => (task_batch, [])
  | task :: rest =>
      if Z.of_nat (length task_batch) <=? max_batch
      then fetch_loop max_batch (task_batch ++ [task]) rest
      else (task_batch, queue)
  end.

Definition fetch_tasks (w : Worker) : list Task * Worker :=
  let '(task_batch, rest) := fetch_loop (max_batch_size w) [] (task_queue w) in
  (task_batch, set_task_queue rest w).

(** The state of the asynchronous generator [fetch_task_result] as its
    caller sees it. *)
Inductive GenStatus := Suspended | Exhausted | Failed (e : Exn).

(** One iteration of the [while True] loop on the list object [out_queue]:
    the events yielded and whether the loop goes on. *)
Definition loop_iteration (out_queue : loc) (w : Worker)
  : Worker * list WorkerResult * bool :=
  match default [] (heap w !! out_queue) with
  | [] => (w, [], true)
  | event :: rest =>
      let w1 := set_heap (<[out_queue := rest]> (heap w)) w in
      if bool_decide (r_type event = "done") then (w1, [], false)
      else if bool_decide (r_type event = "error") then (w1, [event], false)
      else (w1, [event], true)
  end.

(** What the producer does while the consumer sleeps: a call of
    [push_task_result] that raises leaves the state as it was. *)
Definition push_all (tid : string) (evs : list WorkerResult) (w : Worker)
  : Worker :=
  foldl (λ w ev, default w (push_task_result tid ev w)) w evs.

(** [del self.task_output[task_id]] *)
Definition del_task_output (tid : string) (w : Worker) : Worker * GenStatus :=
  match task_output w !! tid with
  | None => (w, Failed KeyError)
  | Some _ => (set_task_output (delete tid (task_output w)) w, Exhausted)
  end.

(** The loop of [fetch_task_result] against a schedule: the [k]-th entry of
    [sched] lists the events pushed for [tid] before the [k]-th iteration.
    When the schedule runs out the generator is still suspended in its loop. *)
Fixpoint poll_loop (tid : string) (out_queue : loc)
    (sched : list (list WorkerResult)) (w : Worker)
  : Worker * list WorkerResult * GenStatus :=
  match sched with
  | [] => (w, [], Suspended)
  | pushed :: sched' =>
      match loop_iteration out_queue (push_all tid pushed w) with
      | (w1, ys, true) =>
          let '(w2, ys', st) := poll_loop tid out_queue sched' w1 in
          (w2, ys ++ ys', st)
      | (w1, ys, false) =>
          let '(w2, st) := del_task_output tid w1 in (w2, ys, st)
      end
  end.

(** [fetch_task_result]: the final state, the events yielded to the caller
    in order, and how the generator stands. *)
Definition fetch_task_result (tid : string) (sched : list (list WorkerResult))
    (w : Worker) : Worker * list WorkerResult * GenStatus :=
  match task_output w !! tid with
  | None => (w, [], Failed KeyError)
  | Some out_queue => poll_loop tid out_queue sched w
  end.

(** The loop of [fetch_task_result] read on lists alone: what is yielded,
    and whether the loop has ended, when the channel holds [q] and the
    schedule is [sched]. [poll_loop_stream_of] relates it to [poll_loop]. *)
Fixpoint stream_of (q : list WorkerResult) (sched : list (list WorkerResult))
  : list WorkerResult * bool :=
  match sched with
  | [] => ([], false)
  | pushed :: sched' =>
      match q ++ pushed with
      | [] => stream_of [] sched'
      | event :: rest =>
          if bool_decide (r_type event = "done") then ([], true)
          else if bool_decide (r_type event = "error") then ([event], true)
          else let '(ys, fin) := stream_of rest sched' in (event :: ys, fin)
      end
  end.

(** The events that end a stream: [type] is ["done"] or ["error"]. *)
Definition terminal (ev : WorkerResult) : bool :=
  bool_decide (r_type ev = "done") || bool_decide (r_type ev = "error").

End Queue.

(** ** Batched decoding: [prepare_logits_processor] and [batch_generation] *)
Module Generation.

(** The members of a [LogitsProcessorList], by the class that builds them. *)
Inductive LogitsProcessor :=
| TemperatureLogitsWarper (temperature : float)
| RepetitionPenaltyLogitsProcessor (penalty : float)
| TopPLogitsWarper (top_p : float)
| TopKLogitsWarper (top_k : Z).

Definition prepare_logits_processor
    (temperature repetition_penalty top_p : float) (top_k : Z)
  : list LogitsProcessor :=
  let processor_list := [] in
  let processor_list :=
    if PrimFloat.leb 1e-5 temperature && negb (PrimFloat.eqb temperature 1.0)
    then processor_list ++ [TemperatureLogitsWarper temperature]
    else processor_list in
  let processor_list :=
    if PrimFloat.ltb 1.0 repetition_penalty
    then processor_list ++ [RepetitionPenaltyLogitsProcessor repetition_penalty]
    else processor_list in
  let processor_list :=
    if PrimFloat.leb 1e-8 top_p && PrimFloat.ltb top_p 1.0
    then processor_list ++ [TopPLogitsWarper top_p]
    else processor_list in
  let processor_list :=
    if 0 <? top_k
    then processor_list ++ [TopKLogitsWarper top_k]
    else processor_list in
  processor_list.

(** The tokenizer, as the source uses it: [encode] is the token ids of one
    prompt, [decode] is [tokenizer.decode(ids, skip_special_tokens=True)]. *)
Record Tokenizer := {
  encode : string → list Z;
  decode : list Z → string;
  pad_token_id : Z;
  eos_token_id : Z;
}.

(** The model backend: [forward step input_ids] is [out.logits[:, -1, :]]
    of the forward pass made at [step], one row of scores per batch row
    (the step stands for the cached state the pass is given). *)
Record PreTrainedModel := {
  forward : nat → list (list Z) → list (list float);
}.

(** The tensor library: the effect of one logits processor called with
    [(input_ids, scores)], and the draw
    [torch.multinomial(torch.softmax(scores), 1)] made at a step for a
    batch index. *)
Record Numerics := {
  process : LogitsProcessor → option (list Z) → list (list float)
            → list (list float);
  multinomial : nat → nat → list float → Z;
}.

(** [torch.argmax] of a vector: the first index of a largest entry. *)
Fixpoint argmax_from (best_i : nat) (best : float) (i : nat) (l : list float)
  : nat :=
  match l with
  | [] => best_i
  | x :: r => if PrimFloat.ltb best x then argmax_from i x (S i) r
              else argmax_from best_i best (S i) r
  end.

Definition argmax (l : list float) : Z :=
  match l with
  | [] => 0
  | x :: r => Z.of_nat (argmax_from 0 x 1 r)
  end.

(** Python's [max] and [min] of a list that is not empty. *)
Definition max_of (l : list Z) : Z :=
  match l with
  | [] => 0
  | x :: r => foldl Z.max x r
  end.

Definition min_of (l : list nat) : nat :=
  match l with
  | [] => 0%nat
  | x :: r => foldl Nat.min x r
  end.

(** Python's [a % b] on ints: [None] is the [ZeroDivisionError]. *)
Definition py_mod (a b : Z) : option Z :=
  if b =? 0 then None else Some (a mod b).

(** What a run of the generator [batch_generation] amounts to when it is
    iterated to its end: the events yielded in order, the final
    [input_ids], and whether it ended by raising. *)
Record GenResult := {
  yielded : list WorkerResult;
  context : list (list Z);
  ended : Outcome;
}.

Section batch.

Variable tokenizer : Tokenizer.
Variable model : PreTrainedModel.
Variable lib : Numerics.
Variable stream_interval : Z.

(** Modelled from the spec: [tokenizer(prompts, padding="longest",
    return_length=True)], whose implementation the source at hand does not
    contain; the spec has it right-pad every prompt to the longest one of
    the batch and report each prompt's true, unpadded length. *)
Definition tokenize (prompts : list string) : list (list Z) * list nat :=
  let ids := encode tokenizer <$> prompts in
  let longest := max_list (length <$> ids) in
  ((λ row, row ++ replicate (longest - length row)%nat (pad_token_id tokenizer))
     <$> ids,
   length <$> ids).

Section step.

Variable tasks : list Task.
Variable logits_processor_list : list (list LogitsProcessor).
Variable full_input_ids : list (list Z).
Variable lengths : list nat.
Variable max_new_tokens : Z.

(** The scores the token of task [i] is selected from (source lines
    142-154). The first assignment of the source, [logits[i][-1]], is
    overwritten on both branches and is therefore not used. A processor is
    taken to return its result without writing into the scores it is
    given. *)
Definition last_token_logits (task : Task) (i : nat)
    (logits : list (list float)) (input_ids : list (list Z)) : list float :=
  match default [] (logits_processor_list !! i) with
  | [] => hd [] logits
  | logits_processor =>
      let tmp_output_ids :=
        if PrimFloat.ltb 1.0 (repetition_penalty task)
        then Some (default [] (input_ids !! i)) else None in
      hd [] (foldl (λ scores p, process lib p tmp_output_ids scores)
               logits logits_processor)
  end.

(** The token selected for task [i] (source lines 160-164). *)
Definition select_token (task : Task) (step i : nat) (scores : list float)
  : Z :=
  if PrimFloat.ltb (temperature task) 1e-5 || PrimFloat.ltb (top_p task) 1e-8
  then argmax scores
  else multinomial lib step i scores.

Definition chosen_token (task : Task) (step i : nat)
    (logits : list (list float)) (input_ids : list (list Z)) : Z :=
  select_token task step i (last_token_logits task i logits input_ids).

(** The body of [for i in range(batch_size)] for one task. *)
Definition task_body (step current_len : nat) (logits : list (list float))
    (input_ids : list (list Z)) (i : nat) (task : Task)
    (new_ids : list Z) (is_stop : list bool)
  : list Z * list bool * list WorkerResult * Outcome :=
  let token := chosen_token task step i logits input_ids in
  let length_i := default 0%nat (lengths !! i) in
  let new_ids :=
    if (current_len <? length_i)%nat
    then new_ids ++ [default 0 (default [] (full_input_ids !! i) !! current_len)]
    else new_ids ++ [token] in
  let is_stop := <[i := bool_decide (token = eos_token_id tokenizer)]> is_stop in
  match py_mod (Z.of_nat step) stream_interval with
  | None => (new_ids, is_stop, [], Raised ZeroDivisionError)
  | Some m =>
      let stopped := default false (is_stop !! i) in
      let data :=
        if (m =? 0) || (Z.of_nat step =? max_new_tokens - 1) || stopped
        then [GenerationWorkerResult (task_id task) "data"
                (decode tokenizer new_ids)
                {| prompt_tokens := Z.of_nat length_i;
                   total_tokens := Z.of_nat length_i + Z.of_nat step;
                   completion_tokens := Z.of_nat step |}]
        else [] in
      let done := if stopped then [BaseWorkerResult (task_id task) "done"]
                  else [] in
      (new_ids, is_stop, data ++ done, Returned)
  end.

(** [for i in range(batch_size)], from index [i] on, over [tasks[i:]]. *)
Fixpoint task_loop (step current_len : nat) (logits : list (list float))
    (input_ids : list (list Z)) (i : nat) (ts : list Task)
    (new_ids : list Z) (is_stop : list bool)
  : list Z * list bool * list WorkerResult * Outcome :=
  match ts with
  | [] => (new_ids, is_stop, [], Returned)
  | task :: ts' =>
      match task_body step current_len logits input_ids i task new_ids is_stop
      with
      | (new_ids1, is_stop1, evs, Returned) =>
          let '(new_ids2, is_stop2, evs', o) :=
            task_loop step current_len logits input_ids (S i) ts'
              new_ids1 is_stop1 in
          (new_ids2, is_stop2, evs ++ evs', o)
      | raised => raised
      end
  end.

(** [torch.cat((input_ids, torch.tensor(new_ids)), dim=1)]: [input_ids]
    is a matrix and [torch.tensor(new_ids)] a vector, and [torch.cat]
    refuses to join tensors of different ranks: [None] is the
    [RuntimeError] it raises. Only a vector without entries is passed over;
    the batch is never empty where the loop is entered. *)
Definition torch_cat (input_ids : list (list Z)) (new_ids : list Z)
  : option (list (list Z)) :=
  match new_ids with
  | [] => Some input_ids
  | _ :: _ => None
  end.

(** [for step in range(max_new_tokens)]: [n] steps from [step] on. A step
    ends with the call of [torch.cat], so that the run of a batch ends by
    raising at the end of its first step. *)
Fixpoint step_loop (n step : nat) (input_ids : list (list Z))
    (is_stop : list bool) : GenResult :=
  match n with
  | O => {| yielded := []; context := input_ids; ended := Returned |}
  | S n' =>
      let logits := forward model step input_ids in
      let current_len := length (hd [] input_ids) in
      match task_loop step current_len logits input_ids 0 tasks [] is_stop with
      | (new_ids, is_stop', evs, Returned) =>
          match torch_cat input_ids new_ids with
          | Some input_ids' =>
              let r := step_loop n' (S step) input_ids' is_stop' in
              {| yielded := evs ++ yielded r; context := context r;
                 ended := ended r |}
          | None =>
              {| yielded := evs; context := input_ids;
                 ended := Raised RuntimeError |}
          end
      | (_, _, evs, Raised e) =>
          {| yielded := evs; context := input_ids; ended := Raised e |}
      end
  end.

(** The id selected for batch row [i], the one appended to [new_ids],
    when the context has [c] columns (source lines 166-169). *)
Definition appended (c step : nat) (logits : list (list float))
    (input_ids : list (list Z)) (i : nat) (task : Task) : Z :=
  if (c <? default 0%nat (lengths !! i))%nat
  then default 0 (default [] (full_input_ids !! i) !! c)
  else chosen_token task step i logits input_ids.

End step.

Definition batch_generation (tasks : list Task) : GenResult :=
  let batch_size := length tasks in
  if (batch_size =? 0)%nat
  then {| yielded := []; context := []; ended := Returned |}
  else
    let prompts := prompt <$> tasks in
    let max_new_tokens := max_of (max_new_tokens <$> tasks) in
    let logits_processor_list :=
      (λ task, prepare_logits_processor (temperature task)
                 (repetition_penalty task) (top_p task) (top_k task))
        <$> tasks in
    let '(full_input_ids, lengths) := tokenize prompts in
    let input_ids := take (min_of lengths) <$> full_input_ids in
    step_loop tasks logits_processor_list full_input_ids lengths
      max_new_tokens (Z.to_nat max_new_tokens) 0 input_ids
      (replicate batch_size false).

End batch.

(** [inference_generation]: every chunk of the generator is pushed to the
    channel of its task; a [KeyError] of [push_task_result] ends the call. *)
Fixpoint push_chunks (chunks : list WorkerResult) (w : Worker)
  : Worker * Outcome :=
  match chunks with
  | [] => (w, Returned)
  | chunk :: rest =>
      match Queue.push_task_result (r_task_id chunk) chunk w with
      | Some w' => push_chunks rest w'
      | None => (w, Raised KeyError)
      end
  end.

(** [inference_generation]: [model_holder] is the attribute of that name,
    [None] when the worker has none (the constructor of the source does
    not set it), in which case reading it raises [AttributeError] once the
    batch has been fetched. *)
Definition inference_generation
    (model_holder : option (Tokenizer * PreTrainedModel)) (lib : Numerics)
    (w : Worker) : Worker * Outcome :=
  if negb (online w) then (w, Returned)
  else
    let '(tasks, w1) := Queue.fetch_tasks w in
    if (length tasks =? 0)%nat then (w1, Returned)
    else
      match model_holder with
      | None => (w1, Raised AttributeError)
      | Some (tokenizer, model) =>
          let r :=
            batch_generation tokenizer model lib (stream_interval w1) tasks in
          match push_chunks (yielded r) w1 with
          | (w2, Returned) => (w2, ended r)
          | raised => raised
          end
      end.

(** The events of one task in a run, in the order they are yielded. *)
Definition events_of (tid : string) (r : GenResult) : list WorkerResult :=
  filter (λ e, r_task_id e = tid) (yielded r).

End Generation.

(** ** Concrete inputs *)
Module Inputs.

Definition mk_task (tid p : string) (n : Z) (t : float) : Task :=
  {| task_id := tid; prompt := p; max_new_tokens := n; temperature := t;
     repetition_penalty := 1.0; top_p := 1.0; top_k := 0 |}.

(** A generation worker as its constructor leaves it: offline, with the
    inference timer installed. *)
Definition fresh_worker : Worker :=
  {| controller_addr := "http://controller";
     limit_model_concurrency := 5;
     stream_interval := 2;
     max_batch_size := 2;
     model_semaphore := None;
     task_queue := [];
     task_output := ∅;
     heap := ∅;
     timers := {[ "generation_inference" :=
                    {| interval := 0.5; fn := inference_generation_fn |} ]};
     online := false;
     trace := [TimerStart "generation_inference"] |}.

Definition online_worker : Worker :=
  (Lifecycle.start (Some 200) fresh_worker).1.

Definition five_tasks : list Task :=
  [mk_task "t1" "a" 4 0; mk_task "t2" "b" 4 0; mk_task "t3" "c" 4 0;
   mk_task "t4" "d" 4 0; mk_task "t5" "e" 4 0].

Definition queued_worker : Worker := set_task_queue five_tasks fresh_worker.

Definition data_event (tid txt : string) : WorkerResult :=
  GenerationWorkerResult tid "data" txt
    {| prompt_tokens := 1; total_tokens := 1; completion_tokens := 0 |}.

(** A worker with one submitted task whose channel already holds an event. *)
Definition submitted_worker : Worker :=
  default fresh_worker
    (Queue.push_task_result "t1" (data_event "t1" "x")
       (Queue.add_task (mk_task "t1" "a" 4 0) fresh_worker)).

(** The same worker once the producer has also pushed the ["done"] event. *)
Definition finished_worker : Worker :=
  default submitted_worker
    (Queue.push_task_result "t1" (BaseWorkerResult "t1" "done")
       submitted_worker).

(** A vocabulary of ten tokens: [0] pads, [1] to [8] are the letters [a] to
    [h], [9] ends a sequence. *)
Definition letters : Generation.Tokenizer :=
  {| Generation.encode := λ s,
       (λ c, Z.of_N (Ascii.N_of_ascii c) - 96) <$> String.list_ascii_of_string s;
     Generation.decode := λ ids,
       String.string_of_list_ascii
         ((λ t, Ascii.ascii_of_N (Z.to_N (t + 96)))
            <$> filter (λ t, 1 ≤ t ≤ 8) ids);
     Generation.pad_token_id := 0;
     Generation.eos_token_id := 9 |}.

(** Scores over the vocabulary that single out the token [k]. *)
Definition one_hot (k : nat) : list float :=
  (λ j, if (j =? k)%nat then 1%float else 0%float) <$> seq 0 10.

(** A model whose scores depend on the batch row: row [0] favours token
    [5], every other row token [3]. *)
Definition row_model : Generation.PreTrainedModel :=
  {| Generation.forward := λ _ input_ids,
       imap (λ r _, one_hot (if (r =? 0)%nat then 5 else 3)) input_ids |}.

(** A model that favours token [6] on every row at every step. *)
Definition six_model : Generation.PreTrainedModel :=
  {| Generation.forward := λ _ input_ids, (λ _, one_hot 6) <$> input_ids |}.

(** A model that favours the end-of-sequence token at steps [0] and [2]
    and token [5] at the other steps. *)
Definition eos_model : Generation.PreTrainedModel :=
  {| Generation.forward := λ step input_ids,
       (λ _, one_hot (if (step =? 0)%nat || (step =? 2)%nat then 9 else 5))
         <$> input_ids |}.

(** Temperature scaling divides the scores; the other processors are left
    out of these inputs. Every draw returns token [4]. *)
Definition scaling : Generation.Numerics :=
  {| Generation.process := λ p _ scores,
       match p with
       | Generation.TemperatureLogitsWarper t =>
           (λ row : list float, (λ x, PrimFloat.div x t) <$> row) <$> scores
       | _ => scores
       end;
     Generation.multinomial := λ _ _ _, 4 |}.

(** A task decoded greedily after temperature scaling: [top_p = 0] selects
    the arg-max and [temperature = 0.5] puts the scaling in the chain. *)
Definition scaled_greedy_task (tid p : string) (n : Z) : Task :=
  {| task_id := tid; prompt := p; max_new_tokens := n; temperature := 0.5;
     repetition_penalty := 1.0; top_p := 0; top_k := 0 |}.

Definition greedy_pair : list Task :=
  [mk_task "A" "abc" 2 0; mk_task "B" "abd" 2 0].

Definition greedy_scaled_pair : list Task :=
  [mk_task "A" "abc" 2 0; scaled_greedy_task "B" "abd" 2].

(** One greedy task and one sampled task (temperature 1). *)
Definition greedy_sampled_pair : list Task :=
  [mk_task "A" "a" 3 0; mk_task "B" "b" 3 1].

Definition single_task : list Task := [mk_task "s" "abc" 2 0].

(** Two greedy tasks with prompts of 3 and 5 tokens. *)
Definition uneven_pair : list Task :=
  [mk_task "s" "abc" 3 0; mk_task "l" "defgh" 3 0].

(** Two greedy tasks submitted under one task id. *)
Definition same_id_pair : list Task :=
  [mk_task "A" "a" 1 0; mk_task "A" "b" 1 0].

End Inputs.

Import Lifecycle Limiter Queue Generation.

(** Closes a goal that is a disjunction one of whose members holds by
    computation. *)
Ltac pick_member :=
  solve [repeat first [left; reflexivity | right]].

From Stdlib Require Import Strings.Ascii.

(** ** Heartbeat: [send_heart_beat] and the [WorkerHeartBeat] callback *)
Module Heartbeat.

(** What the controller does with one attempt of [send_heart_beat]:
    [answer] is the [exist] field of the answer to the heartbeat POST
    ([None] when the POST or the reading of the answer raises), and
    [registration] is the answer to the registration POST that follows
    when [exist] is false. *)
Record Attempt := {
  answer : option bool;
  registration : Lifecycle.Response;
}.

Definition heart_beat_url (w : Worker) : string :=
  controller_addr w +:+ "/receive_heart_beat".

(** The body of [send_heart_beat], run once. *)
Definition send_heart_beat_body (a : Attempt) (w : Worker)
  : Worker * Outcome :=
  let w1 := emit [HttpPost (heart_beat_url w)] w in
  match answer a with
  | None => (w1, Raised RequestException)
  | Some exists_ =>
      if negb exists_ then Lifecycle.register_to_controller (registration a) w1
      else (w1, Returned)
  end.

(** How a call wrapped in [@retry(stop=stop_after_attempt(5))] ends: the
    body has returned, or the last allowed attempt has raised and the
    wrapper raises [RetryError]. *)
Inductive RetryOutcome := Succeeded | RetryError.

(** The retry wrapper: [left] attempts remain, [env k] is what the
    controller does with attempt number [k]. *)
Fixpoint retry_loop (left k : nat) (env : nat → Attempt) (w : Worker)
  : Worker * RetryOutcome :=
  match left with
  | O => (w, RetryError)
  | S left' =>
      match send_heart_beat_body (env k) w with
      | (w1, Returned) => (w1, Succeeded)
      | (w1, Raised _) => retry_loop left' (S k) env w1
      end
  end.

Definition send_heart_beat (env : nat → Attempt) (w : Worker)
  : Worker * RetryOutcome :=
  retry_loop 5 0 env w.

(** The heartbeat and the registration calls in a stretch of the trace. *)
Definition beats (w : Worker) (new : list Effect) : nat :=
  count_occ Effect_eq_dec new (HttpPost (heart_beat_url w)).

Definition registrations (w : Worker) (new : list Effect) : nat :=
  count_occ Effect_eq_dec new (HttpPost (Lifecycle.register_url w)).

(** The state of the callback object. *)
Record WorkerHeartBeat := { last_time : float }.

(** [WorkerHeartBeat.__call__] at the clock reading [now_time]; the flag
    tells whether [send_heart_beat] was called. The only exception
    [send_heart_beat] lets out is the wrapper's [RetryError], which the
    [except] clause for [RequestException] does not catch, so that
    [last_time] is then left as it was. The interval is the integer 30 of
    [constants.py], compared as a float. *)
Definition heart_beat_call (now_time : float) (env : nat → Attempt)
    (hb : WorkerHeartBeat) (w : Worker)
  : WorkerHeartBeat * Worker * bool * RetryOutcome :=
  if negb (online w) then (hb, w, false, Succeeded)
  else if PrimFloat.ltb 30 (PrimFloat.sub now_time (last_time hb)) then
    match send_heart_beat env w with
    | (w1, Succeeded) => ({| last_time := now_time |}, w1, true, Succeeded)
    | (w1, RetryError) => (hb, w1, true, RetryError)
    end
  else (hb, w, false, Succeeded).

(** The timer firing the callback at the clock readings of [calls], each
    with what the controller does then; the run collects the readings at
    which a heartbeat was sent and stops at a call that raises. *)
Fixpoint heart_beat_run (calls : list (float * (nat → Attempt)))
    (hb : WorkerHeartBeat) (w : Worker)
  : list float * WorkerHeartBeat * Worker * RetryOutcome :=
  match calls with
  | [] => ([], hb, w, Succeeded)
  | (now_time, env) :: calls' =>
      match heart_beat_call now_time env hb w with
      | (hb1, w1, sent, Succeeded) =>
          let '(times, hb2, w2, o) := heart_beat_run calls' hb1 w1 in
          ((if sent then [now_time] else []) ++ times, hb2, w2, o)
      | (hb1, w1, sent, RetryError) =>
          ((if sent then [now_time] else []), hb1, w1, RetryError)
      end
  end.

(** Every reading of [times] is more than the heartbeat interval after the
    one before it, [prev] being the reading before the first. *)
Fixpoint spaced (prev : float) (times : list float) : Prop :=
  match times with
  | [] => True
  | t :: times' =>
      PrimFloat.ltb 30 (PrimFloat.sub t prev) = true ∧ spaced t times'
  end.

End Heartbeat.

(** ** [GenerationModelWorker.generation_stream] *)
Module Stream.

(** [generation_stream]: the task is submitted, then its results are
    consumed against the schedule [sched]. *)
Definition generation_stream (task : Task) (sched : list (list WorkerResult))
    (w : Worker) : Worker * list WorkerResult * Queue.GenStatus :=
  Queue.fetch_task_result (task_id task) sched (Queue.add_task task w).

End Stream.

(** ** Well-formed channel tables *)
Module Channels.

(** Every task id with a channel points to a list object of the heap, and
    no two task ids share a list object. *)
Definition channels_ok (w : Worker) : Prop :=
  (∀ tid l, task_output w !! tid = Some l → is_Some (heap w !! l)) ∧
  (∀ tid1 tid2 l, task_output w !! tid1 = Some l →
                  task_output w !! tid2 = Some l → tid1 = tid2).

End Channels.

(** ** The chunks of a decoding pass *)
Module Chunks.

(** The ["data"] chunk of a task at a step: its text decodes [ids], its
    usage counts the prompt's [len] tokens and [step] completion tokens. *)
Definition data_chunk (tokenizer : Generation.Tokenizer) (task : Task)
    (len step : nat) (ids : list Z) : WorkerResult :=
  GenerationWorkerResult (task_id task) "data"
    (Generation.decode tokenizer ids)
    {| prompt_tokens := Z.of_nat len;
       total_tokens := Z.of_nat len + Z.of_nat step;
       completion_tokens := Z.of_nat step |}.

Section chunks.

Variable tokenizer : Generation.Tokenizer.
Variable model : Generation.PreTrainedModel.
Variable lib : Generation.Numerics.
Variable stream_interval : Z.
Variable logits_processor_list : list (list Generation.LogitsProcessor).
Variable full_input_ids : list (list Z).
Variable lengths : list nat.
Variable max_new_tokens : Z.

(** What the body of the task loop yields for the task at batch index [i]
    when it does not raise: [token] is the token chosen for the task and
    [ids] the ids selected so far in the step, the task's own included. *)
Definition chunks_at (step i : nat) (task : Task) (ids : list Z) (token : Z)
  : list WorkerResult :=
  let stopped := bool_decide (token = Generation.eos_token_id tokenizer) in
  (if (Z.of_nat step `mod` stream_interval =? 0)
      || (Z.of_nat step =? max_new_tokens - 1) || stopped
   then [data_chunk tokenizer task (default 0%nat (lengths !! i)) step ids]
   else [])
  ++ (if stopped then [BaseWorkerResult (task_id task) "done"] else []).

End chunks.

Section first_step.

Variable tokenizer : Generation.Tokenizer.
Variable model : Generation.PreTrainedModel.
Variable lib : Generation.Numerics.
Variable tasks : list Task.

(** The chains of the batch, as [batch_generation] builds them. *)
Definition chains : list (list Generation.LogitsProcessor) :=
  (λ task, Generation.prepare_logits_processor (temperature task)
             (repetition_penalty task) (top_p task) (top_k task)) <$> tasks.

(** The padded prompts and the true prompt lengths of the batch. *)
Definition padded : list (list Z) :=
  (Generation.tokenize tokenizer (prompt <$> tasks)).1.

Definition true_lengths : list nat :=
  (Generation.tokenize tokenizer (prompt <$> tasks)).2.

(** The context the first step starts from: the padded prompts cut to the
    length of the shortest prompt. *)
Definition first_input_ids : list (list Z) :=
  take (Generation.min_of true_lengths) <$> padded.

(** The token chosen at the first step for the task at batch index [i]. *)
Definition first_token (i : nat) (task : Task) : Z :=
  Generation.chosen_token lib chains task 0 i
    (Generation.forward model 0 first_input_ids) first_input_ids.

(** The ids the first step selects for appending, one per batch row: the
    list [new_ids] at the end of the task loop. *)
Definition first_new_ids : list Z :=
  imap (λ i task,
          Generation.appended lib chains padded true_lengths
            (Generation.min_of true_lengths) 0
            (Generation.forward model 0 first_input_ids) first_input_ids
            i task)
       tasks.

(** The chunks of the first step for the task at batch index [i]: its
    ["data"] chunk and, when the end-of-sequence token is chosen for it,
    its ["done"] chunk. *)
Definition first_chunks_of (i : nat) (task : Task) : list WorkerResult :=
  data_chunk tokenizer task (length (Generation.encode tokenizer (prompt task)))
    0 (take (S i) first_new_ids)
  :: (if bool_decide (first_token i task = Generation.eos_token_id tokenizer)
      then [BaseWorkerResult (task_id task) "done"] else []).

Definition first_chunks : list WorkerResult :=
  concat (imap first_chunks_of tasks).

End first_step.

End Chunks.

(** ** The model name computed by [BaseModelWorker.__init__] *)
Module Naming.

(** [s.endswith("/")] *)
Fixpoint endswith_slash (s : string) : bool :=
  match s with
  | EmptyString => false
  | String c EmptyString => bool_decide (c = "/"%char)
  | String _ s' => endswith_slash s'
  end.

(** [s[:-1]] *)
Fixpoint drop_last (s : string) : string :=
  match s with
  | EmptyString => EmptyString
  | String _ EmptyString => EmptyString
  | String c s' => String c (drop_last s')
  end.

(** [s.split("/")]: the pieces between the slashes, as the first piece and
    the others. *)
Fixpoint split_slash (s : string) : string * list string :=
  match s with
  | EmptyString => (EmptyString, [])
  | String c s' =>
      let '(p, ps) := split_slash s' in
      if bool_decide (c = "/"%char) then (EmptyString, p :: ps)
      else (String c p, ps)
  end.

Definition pieces (s : string) : list string :=
  let '(p, ps) := split_slash s in p :: ps.

(** The [model_name] field: the given name unless it is empty, else the
    last piece of the path, one trailing slash removed first. *)
Definition model_name_of (model_name model_path : string) : string :=
  let model_path :=
    if endswith_slash model_path then drop_last model_path else model_path in
  if bool_decide (model_name = EmptyString)
  then List.last (pieces model_path) EmptyString
  else model_name.

(** No character of the string is a slash. *)
Fixpoint slash_free (s : string) : Prop :=
  match s with
  | EmptyString => True
  | String c s' => c ≠ "/"%char ∧ slash_free s'
  end.

End Naming.

(** ** The operations of a worker, for statements about all its runs *)
Module Runs.

Inductive WorkerOp :=
| OpStart (r : Lifecycle.Response)
| OpStop (r : Lifecycle.Response)
| OpAddTimer (name : string) (iv : float) (f : TimerFn)
| OpRemoveTimer (name : string)
| OpAddTask (task : Task)
| OpFetchTasks
| OpPushTaskResult (tid : string) (response : WorkerResult)
| OpFetchTaskResult (tid : string) (sched : list (list WorkerResult))
| OpGenerationStream (task : Task) (sched : list (list WorkerResult))
| OpInferenceGeneration
    (model_holder : option (Generation.Tokenizer * Generation.PreTrainedModel))
    (lib : Generation.Numerics)
| OpSendHeartBeat (env : nat → Heartbeat.Attempt).

(** The state a call leaves behind, whether it returns or raises. *)
Definition apply_op (op : WorkerOp) (w : Worker) : Worker :=
  match op with
  | OpStart r => (Lifecycle.start r w).1
  | OpStop r => (Lifecycle.stop r w).1
  | OpAddTimer name iv f => (Lifecycle.add_timer name iv f w).1
  | OpRemoveTimer name => (Lifecycle.remove_timer name w).1
  | OpAddTask task => Queue.add_task task w
  | OpFetchTasks => (Queue.fetch_tasks w).2
  | OpPushTaskResult tid response =>
      default w (Queue.push_task_result tid response w)
  | OpFetchTaskResult tid sched => (Queue.fetch_task_result tid sched w).1.1
  | OpGenerationStream task sched => (Stream.generation_stream task sched w).1.1
  | OpInferenceGeneration model_holder lib =>
      (Generation.inference_generation model_holder lib w).1
  | OpSendHeartBeat env => (Heartbeat.send_heart_beat env w).1
  end.

Definition run_ops (ops : list WorkerOp) (w : Worker) : Worker :=
  foldl (λ w op, apply_op op w) w ops.

End Runs.

Import Heartbeat Stream Channels Chunks Naming Runs.

(** * Lifecycle *)






(** * Admission limiter *)

Lemma get_queue_length_no_semaphore (w : Worker) :
  model_semaphore w = None → get_queue_length w = 0.
Proof. intros H. unfold get_queue_length. by rewrite H. Qed.








(** * Task queue *)

Lemma fetch_loop_take_drop (m : Z) (batch queue : list Task) :
  fetch_loop m batch queue =
    (batch ++ take (Z.to_nat (m + 1) - length batch) queue,
     drop (Z.to_nat (m + 1) - length batch) queue).
Proof.
  revert batch. induction queue as [| t q IH]; intros batch; simpl.
  - by rewrite take_nil, drop_nil, app_nil_r.
  - destruct (Z.of_nat (length batch) <=? m) eqn:Hle.
    + apply Z.leb_le in Hle. rewrite IH, length_app. simpl.
      replace (Z.to_nat (m + 1) - length batch)%nat
        with (S (Z.to_nat (m + 1) - (length batch + 1)))%nat by lia.
      simpl. by rewrite <- app_assoc.
    + apply Z.leb_gt in Hle.
      replace (Z.to_nat (m + 1) - length batch)%nat with 0%nat by lia.
      simpl. by rewrite app_nil_r.
Qed.

(** What [fetch_tasks] does: it takes the first [max_batch_size + 1] tasks
    of the queue, in order, and leaves the rest. *)
Lemma fetch_tasks_take_drop (w : Worker) :
  fetch_tasks w =
    (take (Z.to_nat (max_batch_size w + 1)) (task_queue w),
     set_task_queue (drop (Z.to_nat (max_batch_size w + 1)) (task_queue w)) w).
Proof.
  unfold fetch_tasks. rewrite fetch_loop_take_drop. simpl.
  by rewrite Nat.sub_0_r.
Qed.

(** C4. With [max_batch_size = 2] and five queued tasks, [fetch_tasks]
    returns the first three tasks, one more than the bound, and leaves the
    last two in the queue. *)
Theorem fetch_tasks_exceeds_max_batch_size :
  max_batch_size Inputs.queued_worker = 2 ∧
  (fetch_tasks Inputs.queued_worker).1 = take 3 Inputs.five_tasks ∧
  task_queue (fetch_tasks Inputs.queued_worker).2 = drop 3 Inputs.five_tasks ∧
  ¬ (Z.of_nat (length (fetch_tasks Inputs.queued_worker).1)
     ≤ max_batch_size Inputs.queued_worker).
Proof.
  rewrite fetch_tasks_take_drop. simpl. split_and!; try done. lia.
Qed.



(** * Result channels *)

Lemma push_all_channel (tid : string) (l : loc) (evs q : list WorkerResult)
    (w : Worker) :
  task_output w !! tid = Some l →
  heap w !! l = Some q →
  task_output (push_all tid evs w) = task_output w ∧
  heap (push_all tid evs w) !! l = Some (q ++ evs).
Proof.
  revert q w. induction evs as [| ev evs IH]; intros q w Hout Hheap.
  - simpl. by rewrite app_nil_r.
  - assert (Hpush : push_task_result tid ev w =
              Some (set_heap (alter (λ q0, q0 ++ [ev]) l (heap w)) w)).
    { unfold push_task_result. by rewrite Hout. }
    unfold push_all. simpl. rewrite Hpush. simpl.
    destruct (IH (q ++ [ev])
                (set_heap (alter (λ q0, q0 ++ [ev]) l (heap w)) w))
      as [IH1 IH2]; [done | |].
    + simpl. by rewrite lookup_alter_eq, Hheap.
    + unfold push_all in IH1, IH2. rewrite IH1, IH2.
      split; [done |]. by rewrite <- app_assoc.
Qed.

(** [poll_loop] on the worker state yields what [stream_of] yields on the
    contents of the channel; it deletes the channel entry exactly when the
    loop has ended. *)
Lemma poll_loop_stream_of (tid : string) (l : loc)
    (sched : list (list WorkerResult)) :
  ∀ (w : Worker) (q : list WorkerResult),
  task_output w !! tid = Some l →
  heap w !! l = Some q →
  ∃ w', poll_loop tid l sched w =
          (w', (stream_of q sched).1,
           if (stream_of q sched).2 then Exhausted else Suspended) ∧
        task_output w' !! tid =
          if (stream_of q sched).2 then None else Some l.
Proof.
  induction sched as [| pushed sched IH]; intros w q Hout Hheap.
  - exists w. by simpl.
  - destruct (push_all_channel tid l pushed q w Hout Hheap) as [Ho1 Hh1].
    rewrite <- Ho1 in Hout. simpl. unfold loop_iteration. rewrite Hh1. simpl.
    destruct (q ++ pushed) as [| event rest].
    + destruct (IH (push_all tid pushed w) []) as (w' & Hw' & Hnone);
        [done | done |].
      exists w'. by rewrite Hw'.
    + destruct (bool_decide (r_type event = "done")).
      { unfold del_task_output. simpl. rewrite Hout. simpl.
        eexists. split; [done |]. apply lookup_delete_eq. }
      destruct (bool_decide (r_type event = "error")).
      { unfold del_task_output. simpl. rewrite Hout. simpl.
        eexists. split; [done |]. apply lookup_delete_eq. }
      destruct (IH (set_heap (<[l := rest]> (heap (push_all tid pushed w)))
                      (push_all tid pushed w)) rest)
        as (w' & Hw' & Hnone); [done | by simpl; rewrite lookup_insert_eq |].
      exists w'. rewrite Hw'. simpl.
      by destruct (stream_of rest sched) as [ys fin].
Qed.

Lemma stream_of_drain (m : nat) :
  ∀ (q pre post : list WorkerResult) (t : WorkerResult),
  q = pre ++ t :: post →
  Forall (λ e, terminal e = false) pre →
  terminal t = true →
  (length pre < m)%nat →
  stream_of q (replicate m []) =
    (pre ++ (if bool_decide (r_type t = "done") then [] else [t]), true).
Proof.
  induction m as [| m IH]; intros q pre post t -> Hpre Ht Hm; [lia |].
  simpl. rewrite app_nil_r. destruct pre as [| e pre]; simpl.
  - unfold terminal in Ht.
    destruct (bool_decide (r_type t = "done")); [done |].
    simpl in Ht. by rewrite Ht.
  - inversion Hpre as [| ? ? He Hpre']; subst.
    unfold terminal in He. apply orb_false_iff in He as [-> ->].
    rewrite (IH (pre ++ t :: post) pre post t); [done | done | done | done |].
    simpl in Hm. lia.
Qed.

Lemma stream_of_terminal (sched : list (list WorkerResult)) (m : nat) :
  ∀ (q pre post : list WorkerResult) (t : WorkerResult),
  q ++ concat sched = pre ++ t :: post →
  Forall (λ e, terminal e = false) pre →
  terminal t = true →
  (length pre < m)%nat →
  stream_of q (sched ++ replicate m []) =
    (pre ++ (if bool_decide (r_type t = "done") then [] else [t]), true).
Proof.
  induction sched as [| pushed sched IH]; intros q pre post t Hq Hpre Ht Hm.
  - simpl in *. rewrite app_nil_r in Hq. by eapply stream_of_drain.
  - simpl in Hq. rewrite app_assoc in Hq. simpl.
    destruct (q ++ pushed) as [| event rest].
    + by eapply IH.
    + destruct pre as [| e pre]; simpl in Hq; inversion Hq; subst.
      * unfold terminal in Ht.
        destruct (bool_decide (r_type t = "done")); [done |].
        simpl in Ht. by rewrite Ht.
      * inversion Hpre as [| ? ? He Hpre']; subst.
        unfold terminal in He. apply orb_false_iff in He as [-> ->].
        rewrite (IH rest pre post t); [done | done | done | done |].
        simpl in Hm. lia.
Qed.

(** C5. Let the channel of [tid], together with what the producer pushes
    while the consumer runs, hold the events [pre], then a first terminal
    event [t]. Given enough iterations, [fetch_task_result] ends; it has
    yielded [pre] in channel order, followed by [t] itself when [t] is an
    ["error"] event and by nothing when [t] is a ["done"] event (which is
    consumed and not handed to the caller); and the channel entry of [tid]
    has been deleted. *)
Theorem fetch_task_result_stream (tid : string) (w : Worker) (l : loc)
    (q pre post : list WorkerResult) (t : WorkerResult)
    (sched : list (list WorkerResult)) (m : nat) :
  task_output w !! tid = Some l →
  heap w !! l = Some q →
  q ++ concat sched = pre ++ t :: post →
  Forall (λ e, terminal e = false) pre →
  terminal t = true →
  (length pre < m)%nat →
  ∃ w', fetch_task_result tid (sched ++ replicate m []) w =
          (w', pre ++ (if bool_decide (r_type t = "done") then [] else [t]),
           Exhausted) ∧
        task_output w' !! tid = None.
Proof.
  intros Hout Hheap Hq Hpre Ht Hm.
  unfold fetch_task_result. rewrite Hout.
  destruct (poll_loop_stream_of tid l (sched ++ replicate m []) w q Hout Hheap)
    as (w' & Hw' & Hdel).
  rewrite (stream_of_terminal sched m q pre post t Hq Hpre Ht Hm) in Hw', Hdel.
  by exists w'.
Qed.

Lemma fetch_task_result_stream_witness :
  ∃ w', fetch_task_result "t1" ([[]; [BaseWorkerResult "t1" "error"]]
                                ++ replicate 2 []) Inputs.submitted_worker =
          (w', [Inputs.data_event "t1" "x"; BaseWorkerResult "t1" "error"],
           Exhausted) ∧
        task_output w' !! "t1" = None.
Proof.
  apply (fetch_task_result_stream "t1" Inputs.submitted_worker 1%positive
           [Inputs.data_event "t1" "x"] [Inputs.data_event "t1" "x"] []
           (BaseWorkerResult "t1" "error")
           [[]; [BaseWorkerResult "t1" "error"]] 2).
  - reflexivity.
  - reflexivity.
  - reflexivity.
  - by repeat constructor.
  - reflexivity.
  - simpl. lia.
Defined.

(** C5, as stated, fails: when the stream ends with a ["done"] event the
    consumer ends without handing any terminal event to its caller. *)
Lemma fetch_task_result_done_not_delivered :
  ∃ w', fetch_task_result "t1" [[]; []] Inputs.finished_worker =
          (w', [Inputs.data_event "t1" "x"], Exhausted) ∧
        ¬ (∃ ev, ev ∈ [Inputs.data_event "t1" "x"] ∧ terminal ev = true).
Proof.
  eexists. split; [reflexivity |].
  intros (ev & Hin & Ht). apply list_elem_of_singleton in Hin. by subst.
Qed.

(** * The one step of a decoding pass *)

Lemma foldl_min_le (l : list nat) :
  ∀ a : nat, (foldl Nat.min a l ≤ a)%nat ∧
             ∀ x, x ∈ l → (foldl Nat.min a l ≤ x)%nat.
Proof.
  induction l as [| y l IH]; intros a; simpl.
  - split; [lia |]. intros x Hx. by apply elem_of_nil in Hx.
  - destruct (IH (Nat.min a y)) as [IH1 IH2]. split; [lia |].
    intros x Hx. apply elem_of_cons in Hx as [-> | Hx]; [lia | by apply IH2].
Qed.

Lemma min_of_le (l : list nat) (x : nat) : x ∈ l → (min_of l ≤ x)%nat.
Proof.
  destruct l as [| a l]; intros Hx; [by apply elem_of_nil in Hx |].
  simpl. destruct (foldl_min_le l a) as [H1 H2].
  apply elem_of_cons in Hx as [-> | Hx]; [done | by apply H2].
Qed.

(** The tokenizer call on the batch: the true lengths are the lengths of
    the encodings, and every padded row starts with its encoding. *)
Lemma tokenize_facts (tokenizer : Tokenizer) (tasks : list Task) :
  true_lengths tokenizer tasks
    = (λ task, length (encode tokenizer (prompt task))) <$> tasks ∧
  ∀ i task, tasks !! i = Some task →
    ∃ pads, padded tokenizer tasks !! i
            = Some (encode tokenizer (prompt task) ++ pads).
Proof.
  unfold true_lengths, padded, tokenize. simpl. split.
  - by rewrite <- !list_fmap_compose.
  - intros i task Hi. rewrite !list_lookup_fmap, Hi. simpl. by eexists.
Qed.

Lemma first_input_ids_current_len (tokenizer : Tokenizer) (tasks : list Task) :
  tasks ≠ [] →
  length (hd [] (first_input_ids tokenizer tasks))
    = min_of (true_lengths tokenizer tasks).
Proof.
  intros Hne. destruct tasks as [| task ts]; [done |].
  destruct (tokenize_facts tokenizer (task :: ts)) as [Hlen Hpad].
  destruct (Hpad 0%nat task eq_refl) as [pads Hrow].
  assert (Hmin : (min_of (true_lengths tokenizer (task :: ts))
                  ≤ length (encode tokenizer (prompt task)))%nat).
  { apply min_of_le. rewrite Hlen. simpl. apply list_elem_of_here. }
  unfold first_input_ids.
  destruct (padded tokenizer (task :: ts)) as [| row rows]; [done |].
  simpl in Hrow. inversion Hrow; subst row.
  revert Hmin. generalize (min_of (true_lengths tokenizer (task :: ts))).
  intros m Hmin. simpl. rewrite length_take, length_app. lia.
Qed.

Section one_step.

Variable tokenizer : Tokenizer.
Variable model : PreTrainedModel.
Variable lib : Numerics.
Variable stream_interval : Z.
Hypothesis interval_nonzero : stream_interval ≠ 0.
Variable logits_processor_list : list (list LogitsProcessor).
Variable full_input_ids : list (list Z).
Variable lengths : list nat.
Variable max_new_tokens : Z.

Local Abbreviation body :=
  (task_body tokenizer lib stream_interval logits_processor_list
     full_input_ids lengths max_new_tokens).
Local Abbreviation loop :=
  (task_loop tokenizer lib stream_interval logits_processor_list
     full_input_ids lengths max_new_tokens).
Local Abbreviation picked :=
  (appended lib logits_processor_list full_input_ids lengths).
Local Abbreviation token_of :=
  (chosen_token lib logits_processor_list).
Local Abbreviation chunks :=
  (chunks_at tokenizer stream_interval lengths max_new_tokens).

(** The body of the task loop when the stream interval is not zero. *)
Lemma task_body_run (step c : nat) (logits : list (list float))
    (input_ids : list (list Z)) (i : nat) (task : Task)
    (new_ids : list Z) (is_stop : list bool) :
  (i < length is_stop)%nat →
  body step c logits input_ids i task new_ids is_stop
  = (new_ids ++ [picked c step logits input_ids i task],
     <[i := bool_decide (token_of task step i logits input_ids
                         = eos_token_id tokenizer)]> is_stop,
     chunks step i task (new_ids ++ [picked c step logits input_ids i task])
       (token_of task step i logits input_ids),
     Returned).
Proof.
  intros Hi. unfold task_body, py_mod, Generation.appended, chunks_at.
  destruct (Z.eqb_spec stream_interval 0) as [| _]; [done |].
  rewrite list_lookup_insert_eq by done. simpl.
  by destruct (c <? default 0%nat (lengths !! i))%nat.
Qed.

(** The task loop when the stream interval is not zero: the ids it
    selects and the chunks it yields, task by task. *)
Lemma task_loop_run (step c : nat) (logits : list (list float))
    (input_ids : list (list Z)) (ts : list Task) :
  ∀ (i : nat) (new_ids : list Z) (is_stop : list bool),
  length new_ids = i →
  (i + length ts ≤ length is_stop)%nat →
  ∃ is_stop',
    loop step c logits input_ids i ts new_ids is_stop
    = (new_ids ++ imap (λ k, picked c step logits input_ids (i + k)) ts,
       is_stop',
       concat (imap (λ k task,
                 chunks step (i + k) task
                   (take (S (i + k))
                      (new_ids
                       ++ imap (λ k, picked c step logits input_ids (i + k)) ts))
                   (token_of task step (i + k) logits input_ids)) ts),
       Returned).
Proof.
  induction ts as [| task ts IH]; intros i new_ids is_stop Hlen Hstop.
  - exists is_stop. simpl. by rewrite app_nil_r.
  - simpl in Hstop. simpl loop.
    rewrite task_body_run by lia.
    set (a0 := picked c step logits input_ids i task).
    destruct (IH (S i) (new_ids ++ [a0])
                (<[i := bool_decide (token_of task step i logits input_ids
                                     = eos_token_id tokenizer)]> is_stop))
      as [is_stop' ->].
    { rewrite length_app. simpl. lia. }
    { rewrite length_insert. lia. }
    exists is_stop'.
    assert (Htl : imap (λ k, picked c step logits input_ids (S i + k)) ts
                  = imap ((λ k, picked c step logits input_ids (i + k)) ∘ S) ts).
    { apply imap_ext. intros k t _. simpl. by rewrite Nat.add_succ_r. }
    assert (Hall : (new_ids ++ [a0])
                   ++ imap (λ k, picked c step logits input_ids (S i + k)) ts
                   = new_ids
                     ++ imap (λ k, picked c step logits input_ids (i + k))
                          (task :: ts)).
    { rewrite <- app_assoc, Htl. simpl. by rewrite Nat.add_0_r. }
    assert (Htake : take (S i)
                      (new_ids
                       ++ imap (λ k, picked c step logits input_ids (i + k))
                            (task :: ts))
                    = new_ids ++ [a0]).
    { replace (S i) with (length new_ids + 1)%nat by lia.
      rewrite take_app_add' by done. simpl. by rewrite Nat.add_0_r. }
    rewrite Hall.
    set (all := new_ids
                ++ imap (λ k, picked c step logits input_ids (i + k))
                     (task :: ts)) in *.
    f_equal. f_equal.
    change (imap ?f (task :: ts)) with (f 0%nat task :: imap (f ∘ S) ts).
    cbn [concat]. rewrite Nat.add_0_r, Htake. f_equal. f_equal.
    apply imap_ext. intros k t _. simpl. by rewrite !Nat.add_succ_r.
Qed.

End one_step.

(** The run of a batch that takes a step with a stream interval that is
    not zero: the chunks of the first step, task by task, and then the
    [RuntimeError] of [torch.cat], the context being what it was. *)
Lemma batch_generation_first_step (tokenizer : Tokenizer)
    (model : PreTrainedModel) (lib : Numerics) (stream_interval : Z)
    (tasks : list Task) :
  stream_interval ≠ 0 →
  tasks ≠ [] →
  1 ≤ max_of (max_new_tokens <$> tasks) →
  batch_generation tokenizer model lib stream_interval tasks
  = {| yielded := first_chunks tokenizer model lib tasks;
       context := first_input_ids tokenizer tasks;
       ended := Raised RuntimeError |}.
Proof.
  intros Hsi Hne Hmax. unfold batch_generation.
  assert (Hb : (length tasks =? 0)%nat = false) by (by destruct tasks).
  rewrite Hb.
  pose proof (first_input_ids_current_len tokenizer tasks Hne) as Hcur.
  destruct (tokenize_facts tokenizer tasks) as [Hlens _].
  unfold first_chunks, first_chunks_of, first_new_ids, first_token,
    first_input_ids, chains, true_lengths, padded in *.
  destruct (tokenize tokenizer (prompt <$> tasks)) as [full lens].
  simpl in *.
  destruct (Z.to_nat (max_of (max_new_tokens <$> tasks))) as [| n] eqn:Hn;
    [lia |].
  simpl step_loop. rewrite Hcur.
  destruct (task_loop_run tokenizer lib stream_interval Hsi
              ((λ task, prepare_logits_processor (temperature task)
                          (repetition_penalty task) (top_p task)
                          (top_k task)) <$> tasks)
              full lens (max_of (max_new_tokens <$> tasks)) 0 (min_of lens)
              (forward model 0 (take (min_of lens) <$> full))
              (take (min_of lens) <$> full) tasks 0 []
              (replicate (length tasks) false) eq_refl)
    as [is_stop' ->].
  { rewrite length_replicate. lia. }
  simpl app.
  destruct (imap _ tasks) as [| id0 ids] eqn:Hids.
  { destruct tasks; [done | by simpl in Hids]. }
  simpl torch_cat. cbv iota. f_equal.
  f_equal. apply imap_ext. intros i task Hi. simpl.
  unfold chunks_at. rewrite Zmod_0_l. simpl.
  rewrite Hlens, list_lookup_fmap, Hi. simpl. done.
Qed.

(** The run of a batch none of whose tasks asks for a token. *)
Lemma batch_generation_no_steps (tokenizer : Tokenizer)
    (model : PreTrainedModel) (lib : Numerics) (stream_interval : Z)
    (tasks : list Task) :
  max_of (max_new_tokens <$> tasks) ≤ 0 →
  yielded (batch_generation tokenizer model lib stream_interval tasks) = [] ∧
  ended (batch_generation tokenizer model lib stream_interval tasks)
    = Returned.
Proof.
  intros Hmax. unfold batch_generation.
  destruct (length tasks =? 0)%nat; [done |].
  destruct (tokenize tokenizer (prompt <$> tasks)) as [full lens].
  by replace (Z.to_nat (max_of (max_new_tokens <$> tasks))) with 0%nat by lia.
Qed.

(** The run of a batch with a stream interval of zero: the first task of
    the first step raises before any chunk. *)
Lemma batch_generation_zero_interval (tokenizer : Tokenizer)
    (model : PreTrainedModel) (lib : Numerics) (tasks : list Task) :
  tasks ≠ [] →
  1 ≤ max_of (max_new_tokens <$> tasks) →
  batch_generation tokenizer model lib 0 tasks
  = {| yielded := [];
       context := first_input_ids tokenizer tasks;
       ended := Raised ZeroDivisionError |}.
Proof.
  intros Hne Hmax. unfold batch_generation, first_input_ids, true_lengths,
    padded.
  destruct tasks as [| task ts]; [done |].
  change (length (task :: ts) =? 0)%nat with false. cbv iota.
  destruct (tokenize tokenizer (prompt <$> task :: ts)) as [full lens].
  destruct (Z.to_nat (max_of (max_new_tokens <$> task :: ts)))
    as [| n] eqn:Hn; [lia |].
  reflexivity.
Qed.

(** Whatever the batch and the stream interval, a run yields nothing or
    the chunks of the first step. *)
Lemma batch_generation_yielded (tokenizer : Tokenizer)
    (model : PreTrainedModel) (lib : Numerics) (stream_interval : Z)
    (tasks : list Task) :
  yielded (batch_generation tokenizer model lib stream_interval tasks) = [] ∨
  (stream_interval ≠ 0 ∧
   yielded (batch_generation tokenizer model lib stream_interval tasks)
     = first_chunks tokenizer model lib tasks).
Proof.
  destruct (decide (tasks = [])) as [-> | Hne]; [by left |].
  destruct (decide (max_of (max_new_tokens <$> tasks) ≤ 0)) as [Hmax | Hmax].
  { left. by apply batch_generation_no_steps. }
  destruct (decide (stream_interval = 0)) as [-> | Hsi].
  { left. rewrite batch_generation_zero_interval by (done || lia). done. }
  right. split; [done |].
  rewrite batch_generation_first_step by (done || lia). done.
Qed.

(** ** The chunks of one task id *)

Lemma filter_keeps_all {A} (P : A → Prop) `{∀ x, Decision (P x)} (l : list A) :
  (∀ x, x ∈ l → P x) → filter P l = l.
Proof.
  induction l as [| x l IH]; intros HP; [done |].
  rewrite filter_cons_True by (apply HP, list_elem_of_here).
  f_equal. apply IH. intros y Hy. apply HP. by apply elem_of_cons; right.
Qed.

Lemma filter_drops_all {A} (P : A → Prop) `{∀ x, Decision (P x)} (l : list A) :
  (∀ x, x ∈ l → ¬ P x) → filter P l = [].
Proof.
  induction l as [| x l IH]; intros HP; [done |].
  rewrite filter_cons_False by (apply HP, list_elem_of_here).
  apply IH. intros y Hy. apply HP. by apply elem_of_cons; right.
Qed.

(** Chunks produced task by task, each under its task's id: a task id
    that no task carries gets none of them. *)
Lemma filter_task_id_absent (tid : string) (tasks : list Task) :
  ∀ f : nat → Task → list WorkerResult,
  (∀ k t ev, ev ∈ f k t → r_task_id ev = task_id t) →
  tid ∉ task_id <$> tasks →
  filter (λ e, r_task_id e = tid) (concat (imap f tasks)) = [].
Proof.
  induction tasks as [| t ts IH]; intros f Hf Hnot; [done |].
  simpl. rewrite filter_app.
  rewrite fmap_cons, not_elem_of_cons in Hnot. destruct Hnot as [Hne Hnot].
  rewrite (filter_drops_all _ (f 0%nat t)).
  - simpl. apply IH; [| done]. intros k t' ev. apply Hf.
  - intros ev Hev Hid. apply Hne. by rewrite <- Hid, (Hf _ _ _ Hev).
Qed.

(** When the task ids of the batch are distinct, the chunks under the id
    of a task are the chunks produced for that task. *)
Lemma filter_task_id_own (tasks : list Task) :
  ∀ (f : nat → Task → list WorkerResult) (i : nat) (task : Task),
  (∀ k t ev, ev ∈ f k t → r_task_id ev = task_id t) →
  NoDup (task_id <$> tasks) →
  tasks !! i = Some task →
  filter (λ e, r_task_id e = task_id task) (concat (imap f tasks)) = f i task.
Proof.
  induction tasks as [| t ts IH]; intros f i task Hf Hnd Hi;
    [by rewrite lookup_nil in Hi |].
  rewrite fmap_cons in Hnd. apply NoDup_cons in Hnd as [Hnot Hnd].
  simpl. rewrite filter_app. destruct i as [| i]; simpl in Hi.
  - inversion Hi; subst t.
    rewrite (filter_keeps_all _ (f 0%nat task)) by (intros ev; apply Hf).
    rewrite (filter_task_id_absent (task_id task) ts (f ∘ S)); [| | done].
    + by rewrite app_nil_r.
    + intros k t' ev. apply Hf.
  - rewrite (filter_drops_all _ (f 0%nat t)).
    + simpl. apply (IH (f ∘ S) i task); [| done | done].
      intros k t' ev. apply Hf.
    + intros ev Hev Hid. apply Hnot.
      rewrite <- (Hf _ _ _ Hev), Hid.
      apply list_elem_of_fmap. exists task. split; [done |].
      by eapply list_elem_of_lookup_2.
Qed.

Lemma first_chunks_of_task_id (tokenizer : Tokenizer) (model : PreTrainedModel)
    (lib : Numerics) (tasks : list Task) (k : nat) (t : Task)
    (ev : WorkerResult) :
  ev ∈ first_chunks_of tokenizer model lib tasks k t → r_task_id ev = task_id t.
Proof.
  unfold first_chunks_of. intros Hev.
  apply elem_of_cons in Hev as [-> | Hev]; [done |].
  destruct (bool_decide _); [| by apply elem_of_nil in Hev].
  apply list_elem_of_singleton in Hev. by subst ev.
Qed.

(** * Logits processors *)

(** C7. The chain built by [prepare_logits_processor] lists its transforms
    in the fixed order temperature, repetition penalty, top-p, top-k, and it
    contains the temperature transform exactly when [temperature >= 1e-5]
    and [temperature != 1.0] (a temperature above 1 is applied too), the
    repetition-penalty transform exactly when [repetition_penalty > 1.0],
    the top-p transform exactly when [1e-8 <= top_p < 1.0], and the top-k
    transform exactly when [top_k > 0]. *)
Theorem prepare_logits_processor_chain (t rp p : float) (k : Z) :
  let chain := prepare_logits_processor t rp p k in
  sublist chain [TemperatureLogitsWarper t; RepetitionPenaltyLogitsProcessor rp;
                 TopPLogitsWarper p; TopKLogitsWarper k] ∧
  (TemperatureLogitsWarper t ∈ chain ↔
     PrimFloat.leb 1e-5 t = true ∧ PrimFloat.eqb t 1.0 = false) ∧
  (RepetitionPenaltyLogitsProcessor rp ∈ chain ↔ PrimFloat.ltb 1.0 rp = true) ∧
  (TopPLogitsWarper p ∈ chain ↔
     PrimFloat.leb 1e-8 p = true ∧ PrimFloat.ltb p 1.0 = true) ∧
  (TopKLogitsWarper k ∈ chain ↔ 0 < k).
Proof.
  unfold prepare_logits_processor.
  destruct (PrimFloat.leb 1e-5 t); destruct (PrimFloat.eqb t 1);
    destruct (PrimFloat.ltb 1 rp); destruct (PrimFloat.leb 1e-8 p);
    destruct (PrimFloat.ltb p 1); destruct (0 <? k) eqn:Hk;
    (apply Z.ltb_lt in Hk || apply Z.ltb_ge in Hk); simpl;
    (split; [repeat (apply sublist_nil || apply sublist_skip
                     || apply sublist_cons) |]);
    rewrite ?elem_of_cons, ?elem_of_nil; split_and!;
    (split;
     [ intros Hin; first [ by split_and! | lia
                         | exfalso; intuition discriminate ]
     | intros Hc; first [ pick_member | exfalso; lia
                        | exfalso; intuition discriminate ] ]).
Qed.

(** C7, as stated, fails: at temperature 2.0, which is not below 1, the
    chain contains the temperature transform. *)
Lemma prepare_logits_processor_temperature_above_one :
  ¬ (∀ (t rp p : float) (k : Z),
       TemperatureLogitsWarper t ∈ prepare_logits_processor t rp p k →
       PrimFloat.leb 1.0 t = false ∧ PrimFloat.leb 1e-5 t = true).
Proof.
  intros H. specialize (H 2%float 1%float 1%float 0).
  destruct H as [H _]; [| done].
  vm_compute. apply list_elem_of_here.
Qed.

(** * Selection *)

Section selection.

Variable tokenizer : Tokenizer.
Variable lib : Numerics.
Variable stream_interval : Z.
Variable logits_processor_list : list (list LogitsProcessor).
Variable full_input_ids : list (list Z).
Variable lengths : list nat.
Variable max_new_tokens : Z.

Local Abbreviation picked :=
  (appended lib logits_processor_list full_input_ids lengths).

(** With an empty chain a greedy task gets the arg-max of the first row of
    scores, whatever its own batch index is. *)
Lemma chosen_token_greedy_empty_chain (task : Task) (step i : nat)
    (logits : list (list float)) (input_ids : list (list Z)) :
  logits_processor_list !! i = Some [] →
  PrimFloat.ltb (temperature task) 1e-5 || PrimFloat.ltb (top_p task) 1e-8
    = true →
  chosen_token lib logits_processor_list task step i logits input_ids
    = argmax (hd [] logits).
Proof.
  intros Hchain Hgreedy.
  unfold chosen_token, select_token, last_token_logits.
  by rewrite Hchain, Hgreedy.
Qed.

Hypothesis interval_nonzero : stream_interval ≠ 0.

(** The id the body of the task loop selects does not depend on the stop
    flags. *)
Lemma task_body_appends (step c : nat) (logits : list (list float))
    (input_ids : list (list Z)) (i : nat) (task : Task)
    (new_ids : list Z) (is_stop : list bool) :
  ∃ is_stop' evs,
    task_body tokenizer lib stream_interval logits_processor_list
      full_input_ids lengths max_new_tokens step c logits input_ids i task
      new_ids is_stop
    = (new_ids ++ [picked c step logits input_ids i task], is_stop', evs,
       Returned).
Proof.
  unfold task_body, py_mod, Generation.appended.
  destruct (Z.eqb_spec stream_interval 0) as [| _]; [done |].
  destruct (c <? default 0%nat (lengths !! i))%nat; eauto.
Qed.

Lemma task_loop_appends (step c : nat) (logits : list (list float))
    (input_ids : list (list Z)) (ts : list Task) :
  ∀ (i : nat) (new_ids : list Z) (is_stop : list bool),
  ∃ is_stop' evs,
    task_loop tokenizer lib stream_interval logits_processor_list
      full_input_ids lengths max_new_tokens step c logits input_ids i ts
      new_ids is_stop
    = (new_ids ++ imap (λ k, picked c step logits input_ids (i + k)) ts,
       is_stop', evs, Returned).
Proof.
  induction ts as [| task ts IH]; intros i new_ids is_stop; simpl.
  - rewrite app_nil_r. eauto.
  - destruct (task_body_appends step c logits input_ids i task new_ids is_stop)
      as (s1 & evs1 & ->).
    destruct (IH (S i) (new_ids ++ [picked c step logits input_ids i task]) s1)
      as (s2 & evs2 & ->).
    assert (Htl : imap (λ k, picked c step logits input_ids (S i + k)) ts
                  = imap ((λ k, picked c step logits input_ids (i + k)) ∘ S)
                      ts).
    { apply imap_ext. intros k t _. simpl. by rewrite Nat.add_succ_r. }
    exists s2, (evs1 ++ evs2). rewrite Htl, <- app_assoc. simpl.
    by rewrite Nat.add_0_r.
Qed.

End selection.

Lemma elem_of_concat_imap {A B} (l : list A) (x : B) :
  ∀ f : nat → A → list B,
  x ∈ concat (imap f l) → ∃ i a, l !! i = Some a ∧ x ∈ f i a.
Proof.
  induction l as [| a l IH]; intros f; simpl.
  - by intros H%elem_of_nil.
  - intros Hx. apply elem_of_app in Hx as [Hx | Hx].
    + by exists 0%nat, a.
    + destruct (IH (f ∘ S) Hx) as (i & b & Hi & Hb). by exists (S i), b.
Qed.

(** The run of a batch yields a ["done"] event only for a task for which
    the end-of-sequence token is chosen at the first step. *)
Lemma batch_generation_done_only_at_eos (tokenizer : Tokenizer)
    (model : PreTrainedModel) (lib : Numerics) (stream_interval : Z)
    (tasks : list Task) (ev : WorkerResult) :
  ev ∈ yielded (batch_generation tokenizer model lib stream_interval tasks) →
  r_type ev = "done" →
  ∃ i task, tasks !! i = Some task ∧
    ev = BaseWorkerResult (task_id task) "done" ∧
    first_token tokenizer model lib tasks i task = eos_token_id tokenizer.
Proof.
  destruct (batch_generation_yielded tokenizer model lib stream_interval tasks)
    as [-> | [_ ->]]; [by intros H%elem_of_nil |].
  intros Hev Hty. apply elem_of_concat_imap in Hev as (i & task & Hi & Hev).
  exists i, task. split; [done |]. unfold first_chunks_of in Hev.
  apply elem_of_cons in Hev as [-> | Hev]; [done |].
  destruct (bool_decide_reflect
              (first_token tokenizer model lib tasks i task
               = eos_token_id tokenizer)) as [Heos | _];
    [| by apply elem_of_nil in Hev].
  by apply list_elem_of_singleton in Hev.
Qed.

(** * Decoding on concrete batches *)

(** C1. In a greedy batch of two tasks whose rows of scores differ (row 0
    favours token 5, row 1 token 3), the token chosen for the second task is
    the arg-max of the first row, 5, and not of its own row, 3; this is so
    with an empty processing chain and with a chain that holds the
    temperature transform. In the run of the batch the ids selected at the
    first step are 5 for both tasks, with either chain, and show in the
    texts of the two ["data"] chunks; the run then ends with the
    [RuntimeError] of the concatenation. *)
Theorem chosen_token_reads_first_row :
  let input_ids := [[1; 2; 3]; [1; 2; 4]] in
  let logits := forward Inputs.row_model 0 input_ids in
  let r := batch_generation Inputs.letters Inputs.row_model Inputs.scaling 1
             Inputs.greedy_pair in
  argmax (default [] (logits !! 1%nat)) = 3 ∧
  chosen_token Inputs.scaling [[]; []] (Inputs.mk_task "B" "abd" 2 0)
    0 1 logits input_ids = 5 ∧
  chosen_token Inputs.scaling [[]; [TemperatureLogitsWarper 0.5]]
    (Inputs.scaled_greedy_task "B" "abd" 2) 0 1 logits input_ids = 5 ∧
  first_input_ids Inputs.letters Inputs.greedy_pair = input_ids ∧
  first_new_ids Inputs.letters Inputs.row_model Inputs.scaling
    Inputs.greedy_pair = [5; 5] ∧
  first_new_ids Inputs.letters Inputs.row_model Inputs.scaling
    Inputs.greedy_scaled_pair = [5; 5] ∧
  r_text <$> yielded r = [Some "e"; Some "ee"] ∧
  ended r = Raised RuntimeError.
Proof. vm_compute. by split_and!. Qed.

(** C3. A single task with [max_new_tokens = 2] and a prompt of 3 tokens,
    for which the end-of-sequence token is never chosen: the run yields one
    ["data"] event, with [completion_tokens = 0] and [total_tokens = 3],
    and no ["done"] event, and ends with the [RuntimeError] of the
    concatenation at the end of its first step, the context still being
    the prompt. *)
Theorem no_done_at_max_new_tokens :
  let r := batch_generation Inputs.letters Inputs.six_model Inputs.scaling 1
             Inputs.single_task in
  ended r = Raised RuntimeError ∧
  context r = [[1; 2; 3]] ∧
  r_type <$> yielded r = ["data"] ∧
  r_usage <$> last (yielded r) =
    Some (Some {| prompt_tokens := 3; total_tokens := 3;
                  completion_tokens := 0 |}).
Proof. vm_compute. by split_and!. Qed.

(** * The events of a task id *)

(** C2. When the task ids of a batch are distinct, no task id gets more
    than one ["done"] event in a run of [batch_generation]. When moreover
    the stream interval is not zero and some task asks for a token, the
    events of a task for which the end-of-sequence token is chosen (at the
    first step, the only one the run takes) are its ["data"] event followed
    by one ["done"] event, and the events of any other task are its
    ["data"] event alone, whatever is chosen for the other tasks of the
    batch. *)
Theorem one_done_after_eos (tokenizer : Tokenizer) (model : PreTrainedModel)
    (lib : Numerics) (stream_interval : Z) (tasks : list Task) :
  NoDup (task_id <$> tasks) →
  let r := batch_generation tokenizer model lib stream_interval tasks in
  (∀ tid, (length (filter (λ e, r_type e = "done") (events_of tid r)) ≤ 1)%nat) ∧
  (stream_interval ≠ 0 →
   1 ≤ max_of (max_new_tokens <$> tasks) →
   ∀ i task, tasks !! i = Some task →
     let chunk := data_chunk tokenizer task
                    (length (encode tokenizer (prompt task))) 0
                    (take (S i) (first_new_ids tokenizer model lib tasks)) in
     (first_token tokenizer model lib tasks i task = eos_token_id tokenizer →
        events_of (task_id task) r
        = [chunk; BaseWorkerResult (task_id task) "done"]) ∧
     (first_token tokenizer model lib tasks i task ≠ eos_token_id tokenizer →
        events_of (task_id task) r = [chunk])).
Proof.
  intros Hnd r.
  assert (Hown : ∀ i task, tasks !! i = Some task →
            filter (λ e, r_task_id e = task_id task)
              (first_chunks tokenizer model lib tasks)
            = first_chunks_of tokenizer model lib tasks i task).
  { intros i task Hi. unfold first_chunks.
    apply filter_task_id_own; [| done | done].
    intros k t ev. apply first_chunks_of_task_id. }
  split.
  - intros tid. subst r. unfold events_of.
    destruct (batch_generation_yielded tokenizer model lib stream_interval
                tasks) as [-> | [_ ->]]; [simpl; lia |].
    destruct (decide (tid ∈ task_id <$> tasks)) as [Hin | Hnot].
    + apply list_elem_of_fmap in Hin as (task & -> & Hin).
      apply list_elem_of_lookup_1 in Hin as [i Hi].
      rewrite (Hown i task Hi). unfold first_chunks_of.
      rewrite filter_cons_False by done.
      destruct (bool_decide _); [| simpl; lia].
      rewrite filter_cons_True by done. simpl. lia.
    + unfold first_chunks. rewrite filter_task_id_absent; [simpl; lia | | done].
      intros k t ev. apply first_chunks_of_task_id.
  - intros Hsi Hmax i task Hi chunk. subst r. unfold events_of.
    assert (Hne : tasks ≠ []).
    { intros ->. by rewrite lookup_nil in Hi. }
    rewrite batch_generation_first_step by done. simpl.
    rewrite (Hown i task Hi). unfold first_chunks_of. fold chunk.
    split; intros Heos.
    + by rewrite bool_decide_eq_true_2.
    + by rewrite bool_decide_eq_false_2.
Qed.

Lemma one_done_after_eos_witness :
  events_of "A"
    (batch_generation Inputs.letters Inputs.eos_model Inputs.scaling 1
       Inputs.greedy_sampled_pair)
  = [data_chunk Inputs.letters (Inputs.mk_task "A" "a" 3 0) 1 0 [9];
     BaseWorkerResult "A" "done"].
Proof.
  assert (Hnd : NoDup (task_id <$> Inputs.greedy_sampled_pair)).
  { apply NoDup_cons. split.
    - intros H. apply list_elem_of_singleton in H. discriminate H.
    - apply NoDup_singleton. }
  destruct (one_done_after_eos Inputs.letters Inputs.eos_model Inputs.scaling
              1 Inputs.greedy_sampled_pair Hnd) as [_ H].
  destruct (H ltac:(discriminate) ltac:(vm_compute; discriminate) 0%nat
              (Inputs.mk_task "A" "a" 3 0) eq_refl) as [Heos _].
  exact (Heos ltac:(vm_compute; reflexivity)).
Defined.

(** C2, as stated, fails. Two tasks submitted under one task id are decoded
    in one batch, and the end-of-sequence token is chosen for both: the
    events of the task id are ["data"], ["done"], ["data"], ["done"], a
    second ["data"] event after the first ["done"] event and a second
    terminal event. And with a stream interval of zero the
    end-of-sequence token is chosen for the task and no event at all is
    yielded for it: the run ends with [ZeroDivisionError]. *)
Lemma done_twice_under_shared_task_id :
  (let r := batch_generation Inputs.letters Inputs.eos_model Inputs.scaling 1
              Inputs.same_id_pair in
   first_token Inputs.letters Inputs.eos_model Inputs.scaling
     Inputs.same_id_pair 0 (Inputs.mk_task "A" "a" 1 0)
     = eos_token_id Inputs.letters ∧
   r_type <$> events_of "A" r = ["data"; "done"; "data"; "done"]) ∧
  (let r := batch_generation Inputs.letters Inputs.eos_model Inputs.scaling 0
              Inputs.single_task in
   chosen_token Inputs.scaling (chains Inputs.single_task)
     (Inputs.mk_task "s" "abc" 2 0) 0 0
     (forward Inputs.eos_model 0 [[1; 2; 3]]) [[1; 2; 3]]
     = eos_token_id Inputs.letters ∧
   events_of "s" r = [] ∧
   ended r = Raised ZeroDivisionError).
Proof. vm_compute. by split_and!. Qed.

(** * Prompt catch-up *)

(** C6. Whatever the step, the scores and the context it is run on, with
    a stream interval that is not zero the task loop selects one id per
    task of the batch, the one the code goes on to concatenate: for a task whose true prompt reaches beyond the
    current position (the number of columns of the context) it is the
    task's own prompt token at that position, and for a task whose prompt
    ends at or before that position it is the token chosen for the task.
    In particular, for a batch of two tasks with prompts of 3 and 5 tokens
    whose context has 3 columns, as at the first step, the id selected for
    the longer task is its own prompt token at position 3, and the id
    selected for the shorter task, whose prompt is complete, is the chosen
    token. *)
Theorem catch_up_selects_prompt_tokens (tokenizer : Tokenizer) (lib : Numerics)
    (stream_interval : Z) (tasks : list Task) (step : nat)
    (logits : list (list float)) (input_ids : list (list Z))
    (is_stop : list bool) :
  stream_interval ≠ 0 →
  let c := length (hd [] input_ids) in
  let new_ids :=
    (task_loop tokenizer lib stream_interval (chains tasks)
       (padded tokenizer tasks) (true_lengths tokenizer tasks)
       (max_of (max_new_tokens <$> tasks)) step c logits input_ids 0 tasks []
       is_stop).1.1.1 in
  length new_ids = length tasks ∧
  (∀ i task, tasks !! i = Some task →
     (∀ tok, encode tokenizer (prompt task) !! c = Some tok →
             new_ids !! i = Some tok) ∧
     ((length (encode tokenizer (prompt task)) ≤ c)%nat →
        new_ids !! i
        = Some (chosen_token lib (chains tasks) task step i logits
                  input_ids))) ∧
  (∀ short long, tasks = [short; long] →
     length (encode tokenizer (prompt short)) = 3%nat →
     length (encode tokenizer (prompt long)) = 5%nat →
     c = 3%nat →
     new_ids !! 0%nat
       = Some (chosen_token lib (chains tasks) short step 0 logits input_ids) ∧
     is_Some (new_ids !! 1%nat) ∧
     new_ids !! 1%nat = encode tokenizer (prompt long) !! 3%nat).
Proof.
  intros Hsi c new_ids.
  destruct (task_loop_appends tokenizer lib stream_interval (chains tasks)
              (padded tokenizer tasks) (true_lengths tokenizer tasks)
              (max_of (max_new_tokens <$> tasks)) Hsi step c logits input_ids
              tasks 0 [] is_stop) as (s & evs & Hloop).
  subst new_ids. rewrite Hloop. simpl.
  destruct (tokenize_facts tokenizer tasks) as [Hlens Hpad].
  assert (Hgen : ∀ i task, tasks !! i = Some task →
     (∀ tok, encode tokenizer (prompt task) !! c = Some tok →
        imap (λ k, appended lib (chains tasks) (padded tokenizer tasks)
                     (true_lengths tokenizer tasks) c step logits input_ids k)
          tasks !! i = Some tok) ∧
     ((length (encode tokenizer (prompt task)) ≤ c)%nat →
        imap (λ k, appended lib (chains tasks) (padded tokenizer tasks)
                     (true_lengths tokenizer tasks) c step logits input_ids k)
          tasks !! i
        = Some (chosen_token lib (chains tasks) task step i logits
                  input_ids))).
  { intros i task Hi. rewrite list_lookup_imap, Hi. simpl.
    unfold appended. rewrite Hlens, list_lookup_fmap, Hi. simpl.
    destruct (Hpad i task Hi) as [pads ->]. simpl. split.
    - intros tok Htok.
      pose proof (lookup_lt_Some _ _ _ Htok) as Hlt.
      apply Nat.ltb_lt in Hlt as Hb. rewrite Hb.
      by rewrite lookup_app_l, Htok.
    - intros Hle. apply Nat.ltb_ge in Hle. by rewrite Hle. }
  split_and!.
  - by rewrite length_imap.
  - exact Hgen.
  - intros short long Htasks Hs Hl Hc.
    destruct (Hgen 0%nat short ltac:(by rewrite Htasks)) as [_ H0].
    destruct (Hgen 1%nat long ltac:(by rewrite Htasks)) as [H1 _].
    destruct (lookup_lt_is_Some_2 (encode tokenizer (prompt long)) c
                ltac:(lia)) as [tok Htok].
    rewrite <- Hc. split_and!.
    + apply H0. lia.
    + rewrite (H1 tok Htok). by eexists.
    + by rewrite (H1 tok Htok), Htok.
Qed.

Lemma catch_up_selects_prompt_tokens_witness :
  let new_ids :=
    (task_loop Inputs.letters Inputs.scaling 1 (chains Inputs.uneven_pair)
       (padded Inputs.letters Inputs.uneven_pair)
       (true_lengths Inputs.letters Inputs.uneven_pair) 3 0 3
       (forward Inputs.six_model 0 [[1; 2; 3]; [4; 5; 6]])
       [[1; 2; 3]; [4; 5; 6]] 0 Inputs.uneven_pair [] [false; false]).1.1.1 in
  new_ids !! 0%nat = Some 6 ∧ is_Some (new_ids !! 1%nat) ∧
  new_ids !! 1%nat = Some 7.
Proof.
  destruct (catch_up_selects_prompt_tokens Inputs.letters Inputs.scaling 1
              Inputs.uneven_pair 0 (forward Inputs.six_model 0
                                      [[1; 2; 3]; [4; 5; 6]])
              [[1; 2; 3]; [4; 5; 6]] [false; false] ltac:(discriminate))
    as (_ & _ & H).
  exact (H (Inputs.mk_task "s" "abc" 3 0) (Inputs.mk_task "l" "defgh" 3 0)
           eq_refl eq_refl eq_refl eq_refl).
Defined.

(** C6, as stated, fails: in a greedy batch of two tasks with prompts of 3
    and 5 tokens, the id selected at the first step for the shorter task is
    the chosen token 6, which is none of its prompt tokens, and it shows in
    the texts of the ["data"] chunks; the prompt token 7 is selected for the
    longer task. The run ends with the [RuntimeError] of the concatenation
    at the end of that step, with nothing appended to the context. *)
Lemma shorter_prompt_gets_chosen_token :
  let r := batch_generation Inputs.letters Inputs.six_model Inputs.scaling 1
             Inputs.uneven_pair in
  (task_loop Inputs.letters Inputs.scaling 1 (chains Inputs.uneven_pair)
     (padded Inputs.letters Inputs.uneven_pair)
     (true_lengths Inputs.letters Inputs.uneven_pair) 3 0 3
     (forward Inputs.six_model 0 [[1; 2; 3]; [4; 5; 6]])
     [[1; 2; 3]; [4; 5; 6]] 0 Inputs.uneven_pair [] [false; false]).1.1.1
    = [6; 7] ∧
  encode Inputs.letters "abc" = [1; 2; 3] ∧
  ¬ (6 ∈ encode Inputs.letters "abc") ∧
  r_text <$> yielded r = [Some "f"; Some "fg"] ∧
  context r = [[1; 2; 3]; [4; 5; 6]] ∧
  ended r = Raised RuntimeError.
Proof.
  split_and!; try by vm_compute.
  intros H. assert (Hin : 6 ∈ [1; 2; 3]) by exact H.
  rewrite !elem_of_cons, elem_of_nil in Hin. lia.
Qed.

(** * Timers and the failure paths of [start] and [stop] *)

(** X1. Installing a timer under a free name and removing it again starts
    and then cancels exactly that timer and restores the timer table; a
    second removal finds nothing and changes nothing. *)
Theorem add_remove_timer_round_trip
    (name : string) (iv : float) (f : TimerFn) (w : Worker) :
  timers w !! name = None →
  let w1 := (add_timer name iv f w).1 in
  let w2 := (remove_timer name w1).1 in
  (add_timer name iv f w).2 = true ∧
  (remove_timer name w1).2 = true ∧
  timers w2 = timers w ∧
  trace w2 = trace w ++ [TimerStart name; TimerCancel name] ∧
  remove_timer name w2 = (w2, false).
Proof.
  intros Hfree.
  set (t := {| interval := iv; fn := f |}).
  assert (Hadd : add_timer name iv f w =
            (emit [TimerStart name] (set_timers (<[name := t]> (timers w)) w),
             true)).
  { unfold add_timer. by rewrite Hfree. }
  rewrite Hadd. simpl.
  assert (Hdel : delete name (<[name := t]> (timers w)) = timers w).
  { rewrite delete_insert_eq. by apply delete_id. }
  assert (Hrem : remove_timer name
            (emit [TimerStart name] (set_timers (<[name := t]> (timers w)) w))
          = (set_timers (timers w)
               (emit [TimerCancel name]
                  (emit [TimerStart name]
                     (set_timers (<[name := t]> (timers w)) w))), true)).
  { unfold remove_timer. simpl. by rewrite lookup_insert_eq, Hdel. }
  rewrite Hrem. simpl.
  split_and!; [done | done | done | by rewrite <- app_assoc |].
  unfold remove_timer. simpl. by rewrite Hfree.
Qed.

Lemma add_remove_timer_round_trip_witness :
  timers (remove_timer "heartbeat"
            (add_timer "heartbeat" 5 WorkerHeartBeat_fn
               Inputs.fresh_worker).1).1
  = timers Inputs.fresh_worker.
Proof.
  destruct (add_remove_timer_round_trip "heartbeat" 5 WorkerHeartBeat_fn
              Inputs.fresh_worker eq_refl) as (_ & _ & H & _).
  exact H.
Defined.

(** X2. When the registration call of [start] fails (no answer, or a
    status other than 200), [start] raises and the worker stays offline,
    but the heartbeat timer it has started stays installed; a later [start]
    that is answered with 200 makes a second registration call, starts no
    second timer, and brings the worker online. *)
Theorem start_failed_registration (w : Worker) (r : Response) :
  online w = false →
  timers w !! "heartbeat" = None →
  r ≠ Some 200 →
  let w1 := (start r w).1 in
  (∃ e, (start r w).2 = Raised e) ∧
  online w1 = false ∧
  is_Some (timers w1 !! "heartbeat") ∧
  trace w1 = trace w ++ [TimerStart "heartbeat"; HttpPost (register_url w)] ∧
  let w2 := (start (Some 200) w1).1 in
  (start (Some 200) w1).2 = Returned ∧
  online w2 = true ∧
  timers w2 = timers w1 ∧
  trace w2 = trace w1 ++ [HttpPost (register_url w)].
Proof.
  intros Hoff Hfree Hr.
  set (t := {| interval := WORKER_HEART_BEAT_CHECK_INTERVAL;
               fn := WorkerHeartBeat_fn |}).
  set (v := emit [TimerStart "heartbeat"]
              (set_timers (<["heartbeat" := t]> (timers w)) w)).
  assert (Hfail : ∃ e, post_and_assert (register_url w) r v
                       = (emit [HttpPost (register_url w)] v, Raised e)).
  { unfold post_and_assert. destruct r as [code |]; [| eauto].
    destruct (Z.eqb_spec code 200) as [-> | _]; [done | eauto]. }
  destruct Hfail as [e Hfail].
  assert (Hs1 : start r w = (emit [HttpPost (register_url w)] v, Raised e)).
  { unfold start. rewrite Hoff. unfold add_timer. rewrite Hfree. simpl.
    unfold register_to_controller. fold t. fold v.
    change (register_url v) with (register_url w). by rewrite Hfail. }
  assert (Hs2 : start (Some 200) (emit [HttpPost (register_url w)] v)
                = (set_online true
                     (emit [HttpPost (register_url w)]
                        (emit [HttpPost (register_url w)] v)), Returned)).
  { unfold start. simpl. rewrite Hoff. unfold add_timer. simpl.
    by rewrite lookup_insert_eq. }
  rewrite Hs1. simpl. rewrite Hs2. simpl.
  split_and!; try done.
  - by exists e.
  - rewrite lookup_insert_eq. by eexists.
  - by rewrite <- app_assoc.
Qed.

Lemma start_failed_registration_witness :
  online (start (Some 500) Inputs.fresh_worker).1 = false ∧
  is_Some (timers (start (Some 500) Inputs.fresh_worker).1 !! "heartbeat").
Proof.
  destruct (start_failed_registration Inputs.fresh_worker (Some 500)
              eq_refl eq_refl ltac:(discriminate))
    as (_ & H1 & H2 & _).
  by split.
Defined.

(** X3. When the deregistration call of [stop] fails, [stop] raises with
    every timer already cancelled and the timer table empty while the
    worker is still marked online; a later [stop] that is answered with 200
    cancels nothing more, makes a second deregistration call and marks the
    worker offline. *)
Theorem stop_failed_deregistration (w : Worker) (r : Response) :
  online w = true →
  r ≠ Some 200 →
  let w1 := (stop r w).1 in
  (∃ e, (stop r w).2 = Raised e) ∧
  online w1 = true ∧
  timers w1 = ∅ ∧
  trace w1 = trace w ++ (TimerCancel <$> (map_to_list (timers w)).*1)
                     ++ [HttpPost (remove_url w)] ∧
  let w2 := (stop (Some 200) w1).1 in
  (stop (Some 200) w1).2 = Returned ∧
  online w2 = false ∧
  trace w2 = trace w1 ++ [HttpPost (remove_url w)].
Proof.
  intros Hon Hr.
  set (v := set_timers ∅
              (emit (TimerCancel <$> (map_to_list (timers w)).*1) w)).
  assert (Hfail : ∃ e, post_and_assert (remove_url w) r v
                       = (emit [HttpPost (remove_url w)] v, Raised e)).
  { unfold post_and_assert. destruct r as [code |]; [| eauto].
    destruct (Z.eqb_spec code 200) as [-> | _]; [done | eauto]. }
  destruct Hfail as [e Hfail].
  assert (Hs1 : stop r w = (emit [HttpPost (remove_url w)] v, Raised e)).
  { unfold stop. rewrite Hon. simpl. unfold remove_from_controller. fold v.
    change (remove_url v) with (remove_url w). by rewrite Hfail. }
  assert (Hs2 : stop (Some 200) (emit [HttpPost (remove_url w)] v)
                = (set_online false
                     (emit [HttpPost (remove_url w)]
                        (set_timers ∅
                           (emit [] (emit [HttpPost (remove_url w)] v)))),
                   Returned)).
  { unfold stop. simpl. rewrite Hon. simpl. by rewrite map_to_list_empty. }
  rewrite Hs1. simpl. rewrite Hs2. simpl.
  split_and!; try done.
  - by exists e.
  - by rewrite <- app_assoc.
  - by rewrite app_nil_r.
Qed.

Lemma stop_failed_deregistration_witness :
  online (stop None Inputs.online_worker).1 = true ∧
  timers (stop None Inputs.online_worker).1 = ∅.
Proof.
  destruct (stop_failed_deregistration Inputs.online_worker None
              eq_refl ltac:(discriminate))
    as (_ & H1 & H2 & _).
  by split.
Defined.

(** X4. A worker that is stopped and started again (both calls answered
    with 200) comes back online with the heartbeat timer as its only timer:
    whatever other timer was installed before, the inference timer of the
    constructor included, has been cancelled by [stop] and is not installed
    again by [start]. *)
Theorem restart_keeps_only_heartbeat (w : Worker) :
  online w = true →
  let w2 := (start (Some 200) (stop (Some 200) w).1).1 in
  online w2 = true ∧
  timers w2 = {[ "heartbeat" := {| interval := WORKER_HEART_BEAT_CHECK_INTERVAL;
                                   fn := WorkerHeartBeat_fn |} ]} ∧
  (∀ name, name ≠ "heartbeat" → timers w2 !! name = None) ∧
  trace w2 = trace w ++ (TimerCancel <$> (map_to_list (timers w)).*1)
                     ++ [HttpPost (remove_url w); TimerStart "heartbeat";
                         HttpPost (register_url w)].
Proof.
  intros Hon. unfold stop. rewrite Hon. simpl. unfold start. simpl.
  unfold add_timer. simpl. rewrite lookup_empty. simpl.
  split_and!.
  - done.
  - done.
  - intros name Hne. rewrite insert_empty. by apply lookup_singleton_ne.
  - by rewrite <- !app_assoc.
Qed.

Lemma restart_keeps_only_heartbeat_witness :
  timers (start (Some 200) (stop (Some 200) Inputs.online_worker).1).1
    !! "generation_inference" = None.
Proof.
  destruct (restart_keeps_only_heartbeat Inputs.online_worker eq_refl)
    as (_ & _ & H & _).
  apply H. discriminate.
Defined.

(** * Heartbeat *)

Lemma string_app_inv_head (p s1 s2 : string) : p +:+ s1 = p +:+ s2 → s1 = s2.
Proof.
  induction p as [| c p IH]; simpl; [done |].
  intros H. apply IH. by inversion H.
Qed.

Lemma heart_beat_url_not_register (w v : Worker) :
  controller_addr v = controller_addr w →
  HttpPost (register_url v) ≠ HttpPost (heart_beat_url w).
Proof.
  unfold register_url, heart_beat_url. intros -> H. inversion H as [H'].
  by apply string_app_inv_head in H'.
Qed.

Lemma beats_cons_beat (w : Worker) (l : list Effect) :
  beats w (HttpPost (heart_beat_url w) :: l) = S (beats w l).
Proof. unfold beats. by rewrite count_occ_cons_eq. Qed.

Lemma beats_cons_registration (w : Worker) (l : list Effect) :
  beats w (HttpPost (register_url w) :: l) = beats w l.
Proof.
  unfold beats. rewrite count_occ_cons_neq; [done |].
  by apply heart_beat_url_not_register.
Qed.

Lemma registrations_cons_beat (w : Worker) (l : list Effect) :
  registrations w (HttpPost (heart_beat_url w) :: l) = registrations w l.
Proof.
  unfold registrations. rewrite count_occ_cons_neq; [done |].
  intros H. by apply (heart_beat_url_not_register w w).
Qed.

Lemma registrations_cons_registration (w : Worker) (l : list Effect) :
  registrations w (HttpPost (register_url w) :: l) = S (registrations w l).
Proof. unfold registrations. by rewrite count_occ_cons_eq. Qed.

Lemma send_heart_beat_body_trace (a : Attempt) (w : Worker) :
  ∃ new, trace (send_heart_beat_body a w).1 = trace w ++ new ∧
         beats w new = 1%nat ∧
         (registrations w new ≤ 1)%nat ∧
         controller_addr (send_heart_beat_body a w).1 = controller_addr w ∧
         online (send_heart_beat_body a w).1 = online w ∧
         timers (send_heart_beat_body a w).1 = timers w.
Proof.
  unfold send_heart_beat_body.
  destruct (answer a) as [[|] |]; simpl.
  - exists [HttpPost (heart_beat_url w)].
    rewrite beats_cons_beat, registrations_cons_beat.
    split_and!; (done || (unfold registrations; simpl; lia)).
  - unfold register_to_controller, post_and_assert.
    exists [HttpPost (heart_beat_url w); HttpPost (register_url w)].
    change (register_url (emit [HttpPost (heart_beat_url w)] w))
      with (register_url w).
    rewrite beats_cons_beat, beats_cons_registration,
      registrations_cons_beat, registrations_cons_registration.
    destruct (registration a) as [code |]; [destruct (code =? 200) |];
      simpl; rewrite <- app_assoc;
      split_and!; (done || (unfold registrations; simpl; lia)).
  - exists [HttpPost (heart_beat_url w)].
    rewrite beats_cons_beat, registrations_cons_beat.
    split_and!; (done || (unfold registrations; simpl; lia)).
Qed.

Lemma retry_loop_trace (left : nat) :
  ∀ (k : nat) (env : nat → Attempt) (w : Worker),
  ∃ new, trace (retry_loop left k env w).1 = trace w ++ new ∧
         (beats w new ≤ left)%nat ∧
         (registrations w new ≤ beats w new)%nat ∧
         ((retry_loop left k env w).2 = RetryError → beats w new = left) ∧
         ((retry_loop left k env w).2 = Succeeded → (1 ≤ beats w new)%nat) ∧
         online (retry_loop left k env w).1 = online w ∧
         timers (retry_loop left k env w).1 = timers w.
Proof.
  induction left as [| left IH]; intros k env w; simpl.
  - exists []. rewrite app_nil_r. simpl. by split_and!.
  - destruct (send_heart_beat_body_trace (env k) w)
      as (new1 & Ht1 & Hb1 & Hr1 & Hc1 & Ho1 & Hm1).
    destruct (send_heart_beat_body (env k) w) as [w1 [| e]]; simpl in *.
    + exists new1. split_and!; try done; lia.
    + destruct (IH (S k) env w1) as (new2 & Ht2 & Hb2 & Hr2 & He2 & Hs2 & Ho2 & Hm2).
      assert (Hu1 : heart_beat_url w1 = heart_beat_url w).
      { unfold heart_beat_url. by rewrite Hc1. }
      assert (Hu2 : register_url w1 = register_url w).
      { unfold register_url. by rewrite Hc1. }
      assert (Hba : beats w (new1 ++ new2) = (beats w new1 + beats w new2)%nat)
        by apply count_occ_app.
      assert (Hra : registrations w (new1 ++ new2)
                    = (registrations w new1 + registrations w new2)%nat)
        by apply count_occ_app.
      assert (Hb2' : beats w1 new2 = beats w new2)
        by (unfold beats; by rewrite Hu1).
      assert (Hr2' : registrations w1 new2 = registrations w new2)
        by (unfold registrations; by rewrite Hu2).
      rewrite Hb2', Hr2' in *.
      exists (new1 ++ new2). rewrite Ht2, Ht1, <- app_assoc, Hba, Hra.
      split_and!; try done; try lia; try congruence.
      * intros Herr. rewrite (He2 Herr). lia.
Qed.

(** X5. One call of [send_heart_beat], whatever the controller does, makes
    at least one and at most five heartbeat POSTs and never more
    registration POSTs than heartbeat POSTs; when it gives up with
    [RetryError] it has made exactly five heartbeat POSTs; and it leaves the
    online flag and the timers as they were. *)
Theorem send_heart_beat_attempts (env : nat → Attempt) (w : Worker) :
  ∃ new, trace (send_heart_beat env w).1 = trace w ++ new ∧
         (1 ≤ beats w new ≤ 5)%nat ∧
         (registrations w new ≤ beats w new)%nat ∧
         ((send_heart_beat env w).2 = RetryError → beats w new = 5%nat) ∧
         online (send_heart_beat env w).1 = online w ∧
         timers (send_heart_beat env w).1 = timers w.
Proof.
  unfold send_heart_beat.
  destruct (retry_loop_trace 5 0 env w)
    as (new & Ht & Hb & Hr & He & Hs & Ho & Hm).
  exists new. split_and!; try done.
  destruct (retry_loop 5 0 env w) as [w' [|]]; simpl in *.
  - by apply Hs.
  - rewrite He; [lia | done].
Qed.

Lemma last_cons_default (t : float) (l : list float) (d d' : float) :
  List.last (t :: l) d = List.last (t :: l) d'.
Proof.
  revert t. induction l as [| u l IH]; intros t; [done |].
  change (List.last (u :: l) d = List.last (u :: l) d'). apply IH.
Qed.

(** X6. In a run of the heartbeat callback, as long as no call has ended
    with [RetryError]: every heartbeat is sent more than the heartbeat
    interval after the one before it (the first one after the reading kept
    at construction), the callback remembers the reading of the last one
    sent, and a run that sends none leaves the worker and the callback
    untouched. *)
Theorem heart_beat_spacing (calls : list (float * (nat → Attempt))) :
  ∀ (hb : WorkerHeartBeat) (w : Worker),
  let '(times, hb', w', o) := heart_beat_run calls hb w in
  spaced (last_time hb) times ∧
  (o = Succeeded → last_time hb' = List.last times (last_time hb)) ∧
  (times = [] → hb' = hb ∧ w' = w).
Proof.
  induction calls as [| [now_time env] calls IH]; intros hb w; simpl.
  - by split_and!.
  - unfold heart_beat_call.
    destruct (negb (online w)).
    { specialize (IH hb w).
      destruct (heart_beat_run calls hb w) as [[[times hb2] w2] o]. done. }
    destruct (PrimFloat.ltb 30 (PrimFloat.sub now_time (last_time hb)))
      eqn:Hlate.
    2:{ specialize (IH hb w).
        destruct (heart_beat_run calls hb w) as [[[times hb2] w2] o]. done. }
    destruct (send_heart_beat env w) as [w1 [|]].
    + specialize (IH {| last_time := now_time |} w1).
      destruct (heart_beat_run calls _ w1) as [[[times hb2] w2] o].
      destruct IH as (Hsp & Hlast & _). simpl. split_and!; try done.
      intros Ho. rewrite (Hlast Ho). simpl.
      destruct times as [| t times]; [done |]. apply last_cons_default.
    + simpl. by split_and!.
Qed.

(** * More on the task queue and the result channels *)

(** X7. [fetch_tasks] neither loses nor reorders tasks: the batch followed
    by the queue it leaves is the queue it found, and the channels are not
    touched. It takes at least one task when the queue is not empty and
    [max_batch_size] is not negative, and with a negative [max_batch_size]
    it takes none, so that queued tasks are never fetched. *)
Theorem fetch_tasks_conserves (w : Worker) :
  (fetch_tasks w).1 ++ task_queue (fetch_tasks w).2 = task_queue w ∧
  task_output (fetch_tasks w).2 = task_output w ∧
  heap (fetch_tasks w).2 = heap w ∧
  (task_queue w ≠ [] → 0 ≤ max_batch_size w → (fetch_tasks w).1 ≠ []) ∧
  (max_batch_size w < 0 →
     (fetch_tasks w).1 = [] ∧ task_queue (fetch_tasks w).2 = task_queue w).
Proof.
  rewrite fetch_tasks_take_drop. simpl. split_and!; try done.
  - apply take_drop.
  - intros Hne Hmax.
    replace (Z.to_nat (max_batch_size w + 1)) with (S (Z.to_nat (max_batch_size w)))
      by lia.
    by destruct (task_queue w).
  - intros Hneg. replace (Z.to_nat (max_batch_size w + 1)) with 0%nat by lia.
    by rewrite take_0, drop_0.
Qed.

(** X8. [add_task] keeps the channel table well formed (every id points to
    a list object, no two ids share one), leaves the binding of every other
    task id and the contents of every existing list object as they were,
    and puts the task at the end of the queue. *)
Theorem add_task_frame (task : Task) (w : Worker) :
  channels_ok w →
  let w' := add_task task w in
  channels_ok w' ∧
  (∀ tid, tid ≠ task_id task → task_output w' !! tid = task_output w !! tid) ∧
  (∀ l q, heap w !! l = Some q → heap w' !! l = Some q) ∧
  List.last (task_queue w') task = task ∧
  length (task_queue w') = S (length (task_queue w)).
Proof.
  intros [Hdom Hinj]. simpl. unfold add_task. simpl.
  set (l' := fresh (dom (heap w))).
  assert (Hfresh : heap w !! l' = None).
  { apply not_elem_of_dom. apply is_fresh. }
  assert (Hold : ∀ tid l, task_output w !! tid = Some l → l ≠ l').
  { intros tid l Hl ->. destruct (Hdom tid l' Hl) as [q Hq]. congruence. }
  split_and!.
  - split; simpl.
    + intros tid l. rewrite lookup_insert. case_decide as Heq.
      * intros [= <-]. rewrite lookup_insert_eq. by eexists.
      * intros Hl. rewrite lookup_insert_ne by (symmetry; by eapply Hold).
        by eapply Hdom.
    + intros tid1 tid2 l. rewrite !lookup_insert.
      case_decide as H1; case_decide as H2.
      * congruence.
      * intros [= <-] Hl. by destruct (Hold tid2 l' Hl).
      * intros Hl [= <-]. by destruct (Hold tid1 l' Hl).
      * apply Hinj.
  - intros tid Hne. by rewrite lookup_insert_ne.
  - intros l q Hq. rewrite lookup_insert_ne; [done |]. intros <-. congruence.
  - by rewrite last_last.
  - rewrite length_app. simpl. lia.
Qed.

Lemma submitted_worker_ok : channels_ok Inputs.submitted_worker.
Proof.
  split.
  - intros tid l.
    change (task_output Inputs.submitted_worker)
      with (<["t1" := 1%positive]> (∅ : gmap string positive)).
    rewrite lookup_insert. case_decide.
    + intros [= <-]. by eexists.
    + by rewrite lookup_empty.
  - intros tid1 tid2 l.
    change (task_output Inputs.submitted_worker)
      with (<["t1" := 1%positive]> (∅ : gmap string positive)).
    rewrite !lookup_insert. repeat case_decide; try congruence;
      rewrite ?lookup_empty; congruence.
Qed.

Lemma add_task_frame_witness :
  channels_ok (add_task (Inputs.mk_task "t2" "b" 4 0) Inputs.submitted_worker) ∧
  heap (add_task (Inputs.mk_task "t2" "b" 4 0) Inputs.submitted_worker)
    !! 1%positive = Some [Inputs.data_event "t1" "x"].
Proof.
  destruct (add_task_frame (Inputs.mk_task "t2" "b" 4 0)
              Inputs.submitted_worker submitted_worker_ok)
    as (H1 & _ & H2 & _).
  split; [exact H1 |]. by apply H2.
Defined.

Lemma poll_loop_idle (tid : string) (l : loc) (n : nat) :
  ∀ (w : Worker) (q : list WorkerResult),
  task_output w !! tid = Some l →
  heap w !! l = Some q →
  Forall (λ e, terminal e = false) q →
  ∃ w', poll_loop tid l (replicate n []) w = (w', take n q, Suspended) ∧
        task_output w' = task_output w ∧
        heap w' !! l = Some (drop n q).
Proof.
  induction n as [| n IH]; intros w q Hout Hheap Hq; simpl.
  - exists w. by rewrite take_0, drop_0.
  - unfold loop_iteration. rewrite Hheap. simpl.
    destruct q as [| e q]; simpl.
    + destruct (IH w [] Hout Hheap Hq) as (w' & Hw' & Ho & Hh).
      exists w'. rewrite Hw'. by rewrite take_nil, drop_nil in *.
    + inversion Hq as [| ? ? He Hq']; subst.
      unfold terminal in He. apply orb_false_iff in He as [-> ->].
      destruct (IH (set_heap (<[l := q]> (heap w)) w) q)
        as (w' & Hw' & Ho & Hh); [done | by simpl; rewrite lookup_insert_eq
                                 | done |].
      exists w'. by rewrite Hw'.
Qed.

(** X9. Events that do not end the stream go through a channel in the
    order they were pushed and one per poll: after the events [evs] (none
    of type ["done"] or ["error"]) have been pushed to the empty channel of
    a task, a consumer that polls [n] times has been handed the first [n]
    of them, is still waiting, and has left the others in the channel. *)
Theorem push_then_consume (tid : string) (w : Worker) (l : loc)
    (evs : list WorkerResult) (n : nat) :
  task_output w !! tid = Some l →
  heap w !! l = Some [] →
  Forall (λ e, terminal e = false) evs →
  ∃ w', fetch_task_result tid (replicate n []) (push_all tid evs w)
          = (w', take n evs, Suspended) ∧
        task_output w' !! tid = Some l ∧
        heap w' !! l = Some (drop n evs).
Proof.
  intros Hout Hheap Hevs.
  destruct (push_all_channel tid l evs [] w Hout Hheap) as [Ho Hh].
  simpl in Hh. unfold fetch_task_result. rewrite Ho, Hout.
  destruct (poll_loop_idle tid l n (push_all tid evs w) evs)
    as (w' & Hw' & Ho' & Hh'); [by rewrite Ho | done | done |].
  exists w'. split_and!; [done | by rewrite Ho', Ho | done].
Qed.

Lemma push_then_consume_witness :
  ∃ w', fetch_task_result "t1" (replicate 1 [])
          (push_all "t1" [Inputs.data_event "t1" "x"; Inputs.data_event "t1" "y"]
             (add_task (Inputs.mk_task "t1" "a" 4 0) Inputs.fresh_worker))
          = (w', [Inputs.data_event "t1" "x"], Suspended) ∧
        heap w' !! 1%positive = Some [Inputs.data_event "t1" "y"].
Proof.
  destruct (push_then_consume "t1"
              (add_task (Inputs.mk_task "t1" "a" 4 0) Inputs.fresh_worker)
              1%positive
              [Inputs.data_event "t1" "x"; Inputs.data_event "t1" "y"] 1
              eq_refl eq_refl ltac:(by repeat constructor))
    as (w' & H1 & _ & H2).
  by exists w'.
Defined.

(** * Delivery of the chunks of a decoding pass *)

Lemma push_chunks_queue (chunks : list WorkerResult) :
  ∀ w : Worker,
  task_queue (push_chunks chunks w).1 = task_queue w ∧
  task_output (push_chunks chunks w).1 = task_output w ∧
  online (push_chunks chunks w).1 = online w ∧
  timers (push_chunks chunks w).1 = timers w ∧
  trace (push_chunks chunks w).1 = trace w.
Proof.
  induction chunks as [| c chunks IH]; intros w; simpl; [done |].
  unfold push_task_result.
  destruct (task_output w !! r_task_id c) as [l |]; [| done].
  destruct (IH (set_heap (alter (λ q, q ++ [c]) l (heap w)) w))
    as (H1 & H2 & H3 & H4 & H5).
  by rewrite H1, H2, H3, H4, H5.
Qed.

(** X10. When the channel table is well formed and every chunk belongs to
    a task that has a channel, [push_chunks] (the loop of
    [inference_generation]) returns without raising, and the channel of
    every task has received exactly the chunks of that task, in the order
    they were yielded, after what it held before. *)
Theorem push_chunks_delivers (chunks : list WorkerResult) :
  ∀ w : Worker,
  channels_ok w →
  (∀ c, c ∈ chunks → is_Some (task_output w !! r_task_id c)) →
  (push_chunks chunks w).2 = Returned ∧
  ∀ tid l q, task_output w !! tid = Some l → heap w !! l = Some q →
    heap (push_chunks chunks w).1 !! l
    = Some (q ++ filter (λ c, r_task_id c = tid) chunks).
Proof.
  induction chunks as [| c chunks IH]; intros w [Hdom Hinj] Hall; simpl.
  - split; [done |]. intros tid l q _ Hq. by rewrite app_nil_r.
  - destruct (Hall c (list_elem_of_here _ _)) as [lc Hlc].
    unfold push_task_result. rewrite Hlc.
    set (w1 := set_heap (alter (λ q, q ++ [c]) lc (heap w)) w).
    destruct (IH w1) as [Hret Hheap].
    { split; simpl.
      - intros tid l Hl. destruct (Hdom tid l Hl) as [q Hq].
        destruct (decide (lc = l)) as [-> | Hne].
        + rewrite lookup_alter_eq, Hq. by eexists.
        + rewrite lookup_alter_ne by done. by eexists.
      - exact Hinj. }
    { intros c' Hc'. apply Hall. by apply list_elem_of_further. }
    split; [done |]. intros tid l q Hl Hq.
    rewrite filter_cons. case_decide as Hid.
    + assert (lc = l) as -> by (rewrite Hid in Hlc; congruence).
      rewrite (Hheap tid l (q ++ [c])); [by rewrite <- app_assoc | done |].
      simpl. by rewrite lookup_alter_eq, Hq.
    + assert (Hne : lc ≠ l).
      { intros ->. apply Hid. by eapply Hinj. }
      rewrite (Hheap tid l q); [done | done |].
      simpl. by rewrite lookup_alter_ne.
Qed.

Lemma push_chunks_delivers_witness :
  heap (push_chunks [Inputs.data_event "t1" "y"; BaseWorkerResult "t1" "done"]
          Inputs.submitted_worker).1 !! 1%positive
  = Some [Inputs.data_event "t1" "x"; Inputs.data_event "t1" "y";
          BaseWorkerResult "t1" "done"].
Proof.
  destruct (push_chunks_delivers
              [Inputs.data_event "t1" "y"; BaseWorkerResult "t1" "done"]
              Inputs.submitted_worker submitted_worker_ok) as [_ H].
  - intros c Hc. apply elem_of_cons in Hc as [-> | Hc]; [by eexists |].
    apply list_elem_of_singleton in Hc as ->. by eexists.
  - exact (H "t1" 1%positive [Inputs.data_event "t1" "x"] eq_refl eq_refl).
Defined.

(** X11. [push_chunks] stops at the first chunk whose task has no channel:
    it raises [KeyError] with the chunks before it delivered and none of
    the chunks after it, whichever task they belong to. *)
Theorem push_chunks_aborts (pre post : list WorkerResult) (c : WorkerResult) :
  ∀ w : Worker,
  (∀ c', c' ∈ pre → is_Some (task_output w !! r_task_id c')) →
  task_output w !! r_task_id c = None →
  (push_chunks pre w).2 = Returned ∧
  push_chunks (pre ++ c :: post) w = ((push_chunks pre w).1, Raised KeyError).
Proof.
  induction pre as [| c0 pre IH]; intros w Hall Hnone; simpl.
  - unfold push_task_result. by rewrite Hnone.
  - destruct (Hall c0 (list_elem_of_here _ _)) as [l0 Hl0].
    unfold push_task_result. rewrite Hl0.
    apply IH; simpl; [| done].
    intros c' Hc'. apply Hall. by apply list_elem_of_further.
Qed.

Lemma push_chunks_aborts_witness :
  push_chunks ([Inputs.data_event "t1" "y"]
               ++ BaseWorkerResult "t9" "done" :: [Inputs.data_event "t1" "z"])
    Inputs.submitted_worker
  = ((push_chunks [Inputs.data_event "t1" "y"] Inputs.submitted_worker).1,
     Raised KeyError).
Proof.
  apply (push_chunks_aborts [Inputs.data_event "t1" "y"]
           [Inputs.data_event "t1" "z"] (BaseWorkerResult "t9" "done")
           Inputs.submitted_worker).
  - intros c' Hc'. apply list_elem_of_singleton in Hc' as ->. by eexists.
  - reflexivity.
Defined.

(** X12. Once [fetch_task_result] has consumed the terminal event of a
    task, the task id has no channel any more: every later
    [push_task_result] for it raises [KeyError], and so does a second
    [fetch_task_result], at once and without yielding. *)
Theorem channel_closed_after_terminal (tid : string) (w : Worker) (l : loc)
    (q pre post : list WorkerResult) (t : WorkerResult)
    (sched : list (list WorkerResult)) (m : nat) :
  task_output w !! tid = Some l →
  heap w !! l = Some q →
  q ++ concat sched = pre ++ t :: post →
  Forall (λ e, terminal e = false) pre →
  terminal t = true →
  (length pre < m)%nat →
  let w' := (fetch_task_result tid (sched ++ replicate m []) w).1.1 in
  (fetch_task_result tid (sched ++ replicate m []) w).2 = Exhausted ∧
  (∀ ev, push_task_result tid ev w' = None) ∧
  (∀ chunks ev, r_task_id ev = tid →
     (push_chunks (ev :: chunks) w').2 = Raised KeyError) ∧
  (∀ sched', fetch_task_result tid sched' w' = (w', [], Failed KeyError)).
Proof.
  intros Hout Hheap Hq Hpre Ht Hm.
  destruct (poll_loop_stream_of tid l (sched ++ replicate m []) w q Hout Hheap)
    as (w' & Hw' & Hdel).
  rewrite (stream_of_terminal sched m q pre post t Hq Hpre Ht Hm) in Hw', Hdel.
  simpl in Hw', Hdel.
  assert (Hf : fetch_task_result tid (sched ++ replicate m []) w
               = (w', pre ++ (if bool_decide (r_type t = "done") then []
                              else [t]), Exhausted)).
  { unfold fetch_task_result. by rewrite Hout. }
  rewrite Hf. simpl. split_and!; [done | | |].
  - intros ev. unfold push_task_result. by rewrite Hdel.
  - intros chunks ev Hid. simpl. unfold push_task_result.
    by rewrite Hid, Hdel.
  - intros sched'. unfold fetch_task_result. by rewrite Hdel.
Qed.

Lemma channel_closed_after_terminal_witness :
  push_task_result "t1" (BaseWorkerResult "t1" "done")
    (fetch_task_result "t1" ([] ++ replicate 2 [])
       Inputs.finished_worker).1.1 = None.
Proof.
  destruct (channel_closed_after_terminal "t1" Inputs.finished_worker
              1%positive
              [Inputs.data_event "t1" "x"; BaseWorkerResult "t1" "done"]
              [Inputs.data_event "t1" "x"] [] (BaseWorkerResult "t1" "done")
              [] 2 eq_refl eq_refl eq_refl
              ltac:(by repeat constructor) eq_refl ltac:(simpl; lia))
    as (_ & H & _).
  exact (H (BaseWorkerResult "t1" "done")).
Defined.

Lemma poll_loop_task_queue (tid : string) (l : loc)
    (sched : list (list WorkerResult)) :
  ∀ w : Worker,
  task_queue (poll_loop tid l sched w).1.1 = task_queue w.
Proof.
  assert (Hpush : ∀ evs w, task_queue (push_all tid evs w) = task_queue w).
  { induction evs as [| ev evs IH]; intros w; [done |].
    change (push_all tid (ev :: evs) w)
      with (push_all tid evs (default w (push_task_result tid ev w))).
    rewrite IH. unfold push_task_result.
    by destruct (task_output w !! tid). }
  induction sched as [| pushed sched IH]; intros w; simpl; [done |].
  unfold loop_iteration.
  destruct (default [] (heap (push_all tid pushed w) !! l)) as [| e rest].
  - specialize (IH (push_all tid pushed w)).
    destruct (poll_loop tid l sched (push_all tid pushed w)) as [[w2 ys] st].
    simpl in *. by rewrite IH.
  - destruct (bool_decide (r_type e = "done")).
    { unfold del_task_output. simpl.
      destruct (task_output (push_all tid pushed w) !! tid); simpl;
        by rewrite Hpush. }
    destruct (bool_decide (r_type e = "error")).
    { unfold del_task_output. simpl.
      destruct (task_output (push_all tid pushed w) !! tid); simpl;
        by rewrite Hpush. }
    specialize (IH (set_heap (<[l := rest]> (heap (push_all tid pushed w)))
                      (push_all tid pushed w))).
    destruct (poll_loop tid l sched _) as [[w2 ys] st].
    simpl in *. by rewrite IH, Hpush.
Qed.

(** X13. [generation_stream] from any worker state: the task is queued for
    the engine, and when the events pushed for it afterwards are [pre]
    followed by a first terminal event [t], the caller is handed [pre] (and
    [t] itself if it is an ["error"] event), the stream ends, and the
    channel is deleted. Events that an earlier channel of the same task id
    still held are not handed to the caller, and the start never fails for
    want of a channel. *)
Theorem generation_stream_delivers (task : Task) (w : Worker)
    (pre post : list WorkerResult) (t : WorkerResult)
    (sched : list (list WorkerResult)) (m : nat) :
  concat sched = pre ++ t :: post →
  Forall (λ e, terminal e = false) pre →
  terminal t = true →
  (length pre < m)%nat →
  ∃ w', generation_stream task (sched ++ replicate m []) w
          = (w', pre ++ (if bool_decide (r_type t = "done") then [] else [t]),
             Exhausted) ∧
        task_output w' !! task_id task = None ∧
        task_queue w' = task_queue w ++ [task].
Proof.
  intros Hq Hpre Ht Hm. unfold generation_stream, fetch_task_result.
  set (w0 := add_task task w).
  set (l := fresh (dom (heap w))).
  assert (Hout : task_output w0 !! task_id task = Some l).
  { unfold w0, add_task. simpl. by rewrite lookup_insert_eq. }
  assert (Hheap : heap w0 !! l = Some []).
  { unfold w0, add_task. simpl. by rewrite lookup_insert_eq. }
  rewrite Hout.
  pose proof (poll_loop_task_queue (task_id task) l
                (sched ++ replicate m []) w0) as Hqueue.
  destruct (poll_loop_stream_of (task_id task) l (sched ++ replicate m [])
              w0 [] Hout Hheap) as (w' & Hw' & Hdel).
  rewrite (stream_of_terminal sched m [] pre post t Hq Hpre Ht Hm) in Hw', Hdel.
  rewrite Hw' in Hqueue. exists w'. by split_and!.
Qed.

Lemma generation_stream_delivers_witness :
  ∃ w', generation_stream (Inputs.mk_task "t1" "a" 4 0)
          ([[Inputs.data_event "t1" "y"]; [BaseWorkerResult "t1" "error"]]
           ++ replicate 2 []) Inputs.submitted_worker
          = (w', [Inputs.data_event "t1" "y"; BaseWorkerResult "t1" "error"],
             Exhausted) ∧
        task_output w' !! "t1" = None.
Proof.
  destruct (generation_stream_delivers (Inputs.mk_task "t1" "a" 4 0)
              Inputs.submitted_worker [Inputs.data_event "t1" "y"] []
              (BaseWorkerResult "t1" "error")
              [[Inputs.data_event "t1" "y"]; [BaseWorkerResult "t1" "error"]]
              2 eq_refl ltac:(by repeat constructor) eq_refl
              ltac:(simpl; lia))
    as (w' & H1 & H2 & _).
  by exists w'.
Defined.

(** X14. [inference_generation] does nothing on an offline worker. On an
    online worker it removes the fetched batch from the queue for good: the
    queue it leaves is the queue without its first [max_batch_size + 1]
    tasks whether the pass returns or raises, and it touches neither the
    online flag nor the timers. This is so with and without a
    [model_holder] attribute on the worker; without one a call that
    fetches a batch that is not empty raises [AttributeError] and nothing
    is pushed. *)
Theorem inference_generation_consumes_batch
    (model_holder : option (Tokenizer * PreTrainedModel)) (lib : Numerics)
    (w : Worker) :
  let w' := (Generation.inference_generation model_holder lib w).1 in
  (online w = false →
     Generation.inference_generation model_holder lib w = (w, Returned)) ∧
  (online w = true →
     task_queue w' = drop (Z.to_nat (max_batch_size w + 1)) (task_queue w)) ∧
  online w' = online w ∧
  timers w' = timers w ∧
  (online w = true → model_holder = None → (fetch_tasks w).1 ≠ [] →
     Generation.inference_generation model_holder lib w
     = ((fetch_tasks w).2, Raised AttributeError)).
Proof.
  simpl. unfold Generation.inference_generation.
  destruct (online w) eqn:Hon; simpl.
  2:{ by split_and!. }
  rewrite fetch_tasks_take_drop. simpl.
  set (batch := take _ (task_queue w)).
  set (w1 := set_task_queue _ w).
  destruct (length batch =? 0)%nat eqn:Hlen.
  { split_and!; try done. intros _ _ Hne. apply Nat.eqb_eq in Hlen.
    by destruct batch. }
  destruct model_holder as [[tokenizer model] |].
  2:{ by split_and!. }
  pose proof (push_chunks_queue
                (yielded (batch_generation tokenizer model lib
                            (stream_interval w1) batch)) w1)
    as (H1 & _ & H3 & H4 & _).
  destruct (push_chunks _ w1) as [w2 [| e]]; simpl in *;
    rewrite H1, H3, H4; by split_and!.
Qed.

(** * The chunks of a decoding pass *)

(** X15. Every chunk yielded by [batch_generation] belongs to a task of
    the batch and to the first step. It is the task's ["data"] chunk, whose
    usage is [prompt_tokens] = the task's true prompt length,
    [completion_tokens] = 0 and [total_tokens] = the prompt length, and
    whose text is the decoding of the ids selected at that step for the
    batch rows up to the task's own row, not of ids generated for the task
    alone; or it is the ["done"] chunk of a task for which the
    end-of-sequence token is chosen at that step. *)
Theorem batch_generation_chunks (tokenizer : Tokenizer)
    (model : PreTrainedModel) (lib : Numerics) (stream_interval : Z)
    (tasks : list Task) (ev : WorkerResult) :
  ev ∈ yielded (batch_generation tokenizer model lib stream_interval tasks) →
  ∃ i task, tasks !! i = Some task ∧
    (ev = GenerationWorkerResult (task_id task) "data"
            (decode tokenizer
               (take (S i) (first_new_ids tokenizer model lib tasks)))
            {| prompt_tokens :=
                 Z.of_nat (length (encode tokenizer (prompt task)));
               total_tokens :=
                 Z.of_nat (length (encode tokenizer (prompt task)));
               completion_tokens := 0 |}
     ∨ (ev = BaseWorkerResult (task_id task) "done" ∧
        first_token tokenizer model lib tasks i task
          = eos_token_id tokenizer)).
Proof.
  destruct (batch_generation_yielded tokenizer model lib stream_interval tasks)
    as [-> | [_ ->]]; [by intros H%elem_of_nil |].
  intros Hev. apply elem_of_concat_imap in Hev as (i & task & Hi & Hev).
  exists i, task. split; [done |]. unfold first_chunks_of in Hev.
  apply elem_of_cons in Hev as [-> | Hev].
  - left. unfold data_chunk. by rewrite Z.add_0_r.
  - right.
    destruct (bool_decide_reflect
                (first_token tokenizer model lib tasks i task
                 = eos_token_id tokenizer)) as [Heos | _];
      [| by apply elem_of_nil in Hev].
    by apply list_elem_of_singleton in Hev.
Qed.

Lemma batch_generation_chunks_witness :
  ∃ i task, Inputs.single_task !! i = Some task ∧
    (GenerationWorkerResult "s" "data" "f"
       {| prompt_tokens := 3; total_tokens := 3; completion_tokens := 0 |}
     = GenerationWorkerResult (task_id task) "data"
         (decode Inputs.letters
            (take (S i)
               (first_new_ids Inputs.letters Inputs.six_model Inputs.scaling
                  Inputs.single_task)))
         {| prompt_tokens :=
              Z.of_nat (length (encode Inputs.letters (prompt task)));
            total_tokens :=
              Z.of_nat (length (encode Inputs.letters (prompt task)));
            completion_tokens := 0 |}
     ∨ (GenerationWorkerResult "s" "data" "f"
          {| prompt_tokens := 3; total_tokens := 3; completion_tokens := 0 |}
        = BaseWorkerResult (task_id task) "done" ∧
        first_token Inputs.letters Inputs.six_model Inputs.scaling
          Inputs.single_task i task = eos_token_id Inputs.letters)).
Proof.
  apply (batch_generation_chunks Inputs.letters Inputs.six_model
           Inputs.scaling 1 Inputs.single_task
           (GenerationWorkerResult "s" "data" "f"
              {| prompt_tokens := 3; total_tokens := 3;
                 completion_tokens := 0 |})).
  vm_compute. apply list_elem_of_here.
Defined.

(** X16. The runs of [batch_generation] that yield nothing: an empty
    batch; a batch none of whose tasks asks for a token (the run returns
    without any chunk, not even ["done"]); and, when some task asks for at
    least one token, a stream interval of zero (the first task of the first
    step raises [ZeroDivisionError] before any chunk and any append). *)
Theorem batch_generation_silent (tokenizer : Tokenizer)
    (model : PreTrainedModel) (lib : Numerics) (stream_interval : Z)
    (tasks : list Task) :
  let r := batch_generation tokenizer model lib stream_interval tasks in
  (tasks = [] → r = {| yielded := []; context := []; ended := Returned |}) ∧
  (max_of (max_new_tokens <$> tasks) ≤ 0 →
     yielded r = [] ∧ ended r = Returned) ∧
  (tasks ≠ [] → 1 ≤ max_of (max_new_tokens <$> tasks) → stream_interval = 0 →
     yielded r = [] ∧ ended r = Raised ZeroDivisionError ∧
     context r = take (min_of (tokenize tokenizer (prompt <$> tasks)).2)
                   <$> (tokenize tokenizer (prompt <$> tasks)).1).
Proof.
  intros r. subst r. split_and!.
  - by intros ->.
  - apply batch_generation_no_steps.
  - intros Hne Hmax ->.
    by rewrite batch_generation_zero_interval by done.
Qed.

(** X17. With a stream interval that is not zero, a batch that is not
    empty and some task asking for a token, [batch_generation] takes one
    step and no more: it yields, task by task in the order of the batch,
    the ["data"] chunk of each task at step 0 and after it the task's
    ["done"] chunk when the end-of-sequence token is chosen for it, and
    then the concatenation of the selected ids to the context raises
    [RuntimeError], the context still being the padded prompts cut to the
    shortest prompt. So every task is sent its ["data"] chunk of step 0,
    and no chunk of a later step is yielded whatever [max_new_tokens]
    is. *)
Theorem batch_generation_one_step (tokenizer : Tokenizer)
    (model : PreTrainedModel) (lib : Numerics) (stream_interval : Z)
    (tasks : list Task) :
  stream_interval ≠ 0 →
  tasks ≠ [] →
  1 ≤ max_of (max_new_tokens <$> tasks) →
  let r := batch_generation tokenizer model lib stream_interval tasks in
  yielded r
    = concat (imap (λ i task,
        data_chunk tokenizer task (length (encode tokenizer (prompt task))) 0
          (take (S i) (first_new_ids tokenizer model lib tasks))
        :: (if bool_decide (first_token tokenizer model lib tasks i task
                            = eos_token_id tokenizer)
            then [BaseWorkerResult (task_id task) "done"] else [])) tasks) ∧
  context r = take (min_of (true_lengths tokenizer tasks))
                <$> padded tokenizer tasks ∧
  ended r = Raised RuntimeError ∧
  (∀ i task, tasks !! i = Some task →
     data_chunk tokenizer task (length (encode tokenizer (prompt task))) 0
       (take (S i) (first_new_ids tokenizer model lib tasks)) ∈ yielded r) ∧
  (∀ ev, ev ∈ yielded r → r_type ev = "data" →
     ∃ u, r_usage ev = Some u ∧ completion_tokens u = 0).
Proof.
  intros Hsi Hne Hmax r. subst r.
  rewrite batch_generation_first_step by done. simpl.
  split_and!; try done.
  - intros i task Hi. unfold first_chunks.
    assert (Hin : ∀ (l : list Task) (f : nat → Task → list WorkerResult)
                    k t x,
              l !! k = Some t → x ∈ f k t → x ∈ concat (imap f l)).
    { induction l as [| a l IH]; intros f k t x Hk Hx;
        [by rewrite lookup_nil in Hk |].
      simpl. apply elem_of_app. destruct k as [| k]; simpl in Hk.
      - left. by inversion Hk; subst a.
      - right. by apply (IH (f ∘ S) k t x). }
    apply (Hin tasks _ i task); [done |]. apply list_elem_of_here.
  - intros ev Hev Hty.
    apply elem_of_concat_imap in Hev as (i & task & Hi & Hev).
    unfold first_chunks_of in Hev.
    apply elem_of_cons in Hev as [-> | Hev]; [by eexists |].
    destruct (bool_decide _); [| by apply elem_of_nil in Hev].
    apply list_elem_of_singleton in Hev. by subst ev.
Qed.

Lemma batch_generation_one_step_witness :
  let r := batch_generation Inputs.letters Inputs.eos_model Inputs.scaling 1
             Inputs.greedy_sampled_pair in
  r_type <$> yielded r = ["data"; "done"; "data"] ∧
  r_text <$> yielded r = [Some ""; None; Some "d"] ∧
  context r = [[1]; [2]] ∧
  ended r = Raised RuntimeError.
Proof.
  cbv zeta.
  destruct (batch_generation_one_step Inputs.letters Inputs.eos_model
              Inputs.scaling 1 Inputs.greedy_sampled_pair
              ltac:(discriminate) ltac:(discriminate)
              ltac:(vm_compute; discriminate))
    as (Hy & Hc & He & _).
  rewrite Hy, Hc, He. vm_compute. by split_and!.
Defined.

(** * The model name *)

Lemma pieces_not_nil (s : string) : pieces s ≠ [].
Proof. unfold pieces. by destruct (split_slash s). Qed.

Lemma pieces_slash_free (s : string) : slash_free s → pieces s = [s].
Proof.
  unfold pieces. induction s as [| c s IH]; simpl; [done |].
  intros [Hc Hs]. specialize (IH Hs).
  destruct (split_slash s) as [p ps]. inversion IH; subst.
  by rewrite bool_decide_eq_false_2.
Qed.

(** [(a + "/" + s).split("/")] is [a.split("/") + s.split("/")]. *)
Lemma pieces_app_slash (a s : string) :
  pieces (a +:+ String "/" s) = pieces a ++ pieces s.
Proof.
  unfold pieces. induction a as [| c a IH]; simpl.
  - by destruct (split_slash s) as [p ps].
  - destruct (split_slash (a +:+ String "/" s)) as [p ps].
    destruct (split_slash a) as [pa psa].
    destruct (split_slash s) as [p' ps'].
    simpl in IH. inversion IH; subst.
    by destruct (bool_decide (c = "/"%char)).
Qed.

Lemma last_pieces_app_slash (a s : string) :
  List.last (pieces (a +:+ String "/" s)) "" = List.last (pieces s) "".
Proof.
  rewrite pieces_app_slash.
  destruct (pieces s) as [| p ps] eqn:Hs; [by destruct (pieces_not_nil s) |].
  induction (pieces a) as [| q qs IH]; [done |].
  simpl app. destruct (qs ++ p :: ps) eqn:Hq; [by destruct qs |].
  exact IH.
Qed.

Lemma endswith_slash_cons (c : ascii) (s : string) :
  s ≠ "" → endswith_slash (String c s) = endswith_slash s.
Proof. by destruct s. Qed.

Lemma endswith_slash_app (a s : string) :
  s ≠ "" → endswith_slash (a +:+ s) = endswith_slash s.
Proof.
  intros Hs. induction a as [| c a IH]; simpl; [done |].
  destruct (a +:+ s) eqn:Has; [| done].
  destruct a; simpl in Has; [by subst | done].
Qed.

Lemma endswith_slash_free (s : string) :
  slash_free s → endswith_slash s = false.
Proof.
  induction s as [| c s IH]; simpl; [done |]. intros [Hc Hs].
  destruct s; [by rewrite bool_decide_eq_false_2 | by apply IH].
Qed.

Lemma drop_last_app_slash (a : string) : drop_last (a +:+ "/") = a.
Proof.
  induction a as [| c a IH]; simpl; [done |].
  destruct (a +:+ "/") eqn:Ha; [by destruct a | by rewrite IH].
Qed.

(** X18. The worker's model name: a non-empty [model_name] argument is
    kept as it is. With an empty one, the name is the last component of
    [model_path]: for a path [dir/name], for the same path with one
    trailing slash, and for a bare [name] (the component [name] being
    non-empty and free of slashes) the name is [name]. *)
Theorem model_name_of_path (given dir name : string) :
  slash_free name →
  name ≠ "" →
  (given ≠ "" → ∀ path, model_name_of given path = given) ∧
  model_name_of "" (dir +:+ String "/" name) = name ∧
  model_name_of "" (dir +:+ String "/" (name +:+ "/")) = name ∧
  model_name_of "" name = name.
Proof.
  intros Hfree Hne. split_and!.
  - intros Hgiven path. unfold model_name_of.
    by rewrite bool_decide_eq_false_2.
  - unfold model_name_of.
    rewrite endswith_slash_app, endswith_slash_cons by done.
    rewrite endswith_slash_free by done.
    rewrite bool_decide_eq_true_2 by done.
    rewrite last_pieces_app_slash. by rewrite pieces_slash_free.
  - unfold model_name_of.
    replace (dir +:+ String "/" (name +:+ "/"))
      with ((dir +:+ String "/" name) +:+ "/").
    2:{ clear. induction dir as [| c dir IH]; [done |].
        change (String c ((dir +:+ String "/" name) +:+ "/")
                = String c (dir +:+ String "/" (name +:+ "/"))).
        by rewrite IH. }
    rewrite endswith_slash_app by done.
    change (endswith_slash "/") with true. cbv iota.
    rewrite bool_decide_eq_true_2 by done.
    rewrite drop_last_app_slash, last_pieces_app_slash.
    by rewrite pieces_slash_free.
  - unfold model_name_of. rewrite endswith_slash_free by done.
    rewrite bool_decide_eq_true_2 by done.
    by rewrite pieces_slash_free.
Qed.

Lemma model_name_of_path_witness :
  model_name_of "" "/models/vicuna-7b/" = "vicuna-7b".
Proof.
  destruct (model_name_of_path "vicuna" "/models" "vicuna-7b") as (_ & _ & H & _).
  - simpl. repeat split; discriminate.
  - discriminate.
  - exact H.
Defined.

(** * The reported queue length over all runs *)

Lemma post_and_assert_semaphore (url : string) (r : Response) (w : Worker) :
  model_semaphore (post_and_assert url r w).1 = model_semaphore w.
Proof.
  unfold post_and_assert. destruct r as [code |]; [| done].
  by destruct (code =? 200).
Qed.

Lemma push_all_semaphore (tid : string) (evs : list WorkerResult) :
  ∀ w : Worker, model_semaphore (push_all tid evs w) = model_semaphore w.
Proof.
  induction evs as [| ev evs IH]; intros w; [done |].
  change (push_all tid (ev :: evs) w)
    with (push_all tid evs (default w (push_task_result tid ev w))).
  rewrite IH. unfold push_task_result.
  by destruct (task_output w !! tid).
Qed.

Lemma poll_loop_semaphore (tid : string) (l : loc)
    (sched : list (list WorkerResult)) :
  ∀ w : Worker,
  model_semaphore (poll_loop tid l sched w).1.1 = model_semaphore w.
Proof.
  induction sched as [| pushed sched IH]; intros w; simpl; [done |].
  unfold loop_iteration.
  destruct (default [] (heap (push_all tid pushed w) !! l)) as [| e rest].
  - specialize (IH (push_all tid pushed w)).
    destruct (poll_loop tid l sched (push_all tid pushed w)) as [[w2 ys] st].
    simpl in *. by rewrite IH, push_all_semaphore.
  - destruct (bool_decide (r_type e = "done")).
    { unfold del_task_output. simpl.
      destruct (task_output (push_all tid pushed w) !! tid); simpl;
        by rewrite push_all_semaphore. }
    destruct (bool_decide (r_type e = "error")).
    { unfold del_task_output. simpl.
      destruct (task_output (push_all tid pushed w) !! tid); simpl;
        by rewrite push_all_semaphore. }
    specialize (IH (set_heap (<[l := rest]> (heap (push_all tid pushed w)))
                      (push_all tid pushed w))).
    destruct (poll_loop tid l sched _) as [[w2 ys] st].
    simpl in *. by rewrite IH, push_all_semaphore.
Qed.

Lemma fetch_task_result_semaphore (tid : string)
    (sched : list (list WorkerResult)) (w : Worker) :
  model_semaphore (fetch_task_result tid sched w).1.1 = model_semaphore w.
Proof.
  unfold fetch_task_result. destruct (task_output w !! tid); [| done].
  apply poll_loop_semaphore.
Qed.

Lemma push_chunks_semaphore (chunks : list WorkerResult) :
  ∀ w : Worker, model_semaphore (push_chunks chunks w).1 = model_semaphore w.
Proof.
  induction chunks as [| c chunks IH]; intros w; simpl; [done |].
  unfold push_task_result.
  destruct (task_output w !! r_task_id c) as [l |]; [| done].
  by rewrite IH.
Qed.

Lemma retry_loop_semaphore (left : nat) :
  ∀ (k : nat) (env : nat → Attempt) (w : Worker),
  model_semaphore (retry_loop left k env w).1 = model_semaphore w.
Proof.
  induction left as [| left IH]; intros k env w; simpl; [done |].
  assert (Hbody : model_semaphore (send_heart_beat_body (env k) w).1
                  = model_semaphore w).
  { unfold send_heart_beat_body. destruct (answer (env k)) as [[|] |]; simpl;
      [done | | done].
    unfold register_to_controller. by rewrite post_and_assert_semaphore. }
  destruct (send_heart_beat_body (env k) w) as [w1 [| e]]; simpl in *;
    [done |].
  by rewrite IH.
Qed.

Lemma apply_op_semaphore (op : WorkerOp) (w : Worker) :
  model_semaphore (apply_op op w) = model_semaphore w.
Proof.
  destruct op; simpl.
  - unfold start. destruct (online w); [done |].
    unfold register_to_controller.
    pose proof (post_and_assert_semaphore
                  (register_url (add_timer "heartbeat"
                     WORKER_HEART_BEAT_CHECK_INTERVAL WorkerHeartBeat_fn w).1)
                  r (add_timer "heartbeat" WORKER_HEART_BEAT_CHECK_INTERVAL
                       WorkerHeartBeat_fn w).1) as Hpost.
    destruct (post_and_assert _ r _) as [w2 [| e]]; simpl in *;
      rewrite Hpost; unfold add_timer;
      by destruct (timers w !! "heartbeat").
  - unfold stop. destruct (online w); [| done]. simpl.
    unfold remove_from_controller.
    pose proof (post_and_assert_semaphore
                  (remove_url (set_timers ∅
                     (emit (TimerCancel <$> (map_to_list (timers w)).*1) w)))
                  r (set_timers ∅
                       (emit (TimerCancel <$> (map_to_list (timers w)).*1) w)))
      as Hpost.
    by destruct (post_and_assert _ r _) as [w2 [| e]].
  - unfold add_timer. by destruct (timers w !! name).
  - unfold remove_timer. by destruct (timers w !! name).
  - done.
  - by rewrite fetch_tasks_take_drop.
  - unfold push_task_result. by destruct (task_output w !! tid).
  - apply fetch_task_result_semaphore.
  - unfold generation_stream. by rewrite fetch_task_result_semaphore.
  - unfold Generation.inference_generation.
    destruct (online w); [| done]. simpl.
    rewrite fetch_tasks_take_drop.
    destruct (length _ =? 0)%nat; [done |].
    destruct model_holder as [[tokenizer model] |]; [| done].
    match goal with
    | |- context [push_chunks ?cs ?v] =>
        pose proof (push_chunks_semaphore cs v) as Hpush;
        destruct (push_chunks cs v) as [w2 [| e]]
    end; simpl in *; by rewrite Hpush.
  - apply retry_loop_semaphore.
Qed.

(** X19. Nothing in the worker creates the admission semaphore: from a
    worker whose [model_semaphore] is [None], as the constructor leaves
    it, every sequence of calls of [start], [stop], [add_timer],
    [remove_timer], [add_task], [fetch_tasks], [push_task_result],
    [fetch_task_result], [generation_stream], [inference_generation] and
    [send_heart_beat], returning or raising, leaves it [None], so that
    [get_queue_length] (the queue length reported to the controller) is 0
    however many tasks are queued. *)
Theorem queue_length_always_zero (ops : list WorkerOp) :
  ∀ w : Worker,
  model_semaphore w = None →
  model_semaphore (run_ops ops w) = None ∧
  get_queue_length (run_ops ops w) = 0.
Proof.
  induction ops as [| op ops IH]; intros w Hnone.
  - split; [done | by apply get_queue_length_no_semaphore].
  - change (run_ops (op :: ops) w) with (run_ops ops (apply_op op w)).
    apply IH. by rewrite apply_op_semaphore.
Qed.

Lemma queue_length_always_zero_witness :
  get_queue_length
    (run_ops [OpStart (Some 200); OpAddTask (Inputs.mk_task "t1" "a" 4 0);
              OpAddTask (Inputs.mk_task "t2" "b" 4 0)] Inputs.fresh_worker) = 0
  ∧ length (task_queue
      (run_ops [OpStart (Some 200); OpAddTask (Inputs.mk_task "t1" "a" 4 0);
                OpAddTask (Inputs.mk_task "t2" "b" 4 0)] Inputs.fresh_worker))
    = 2%nat.
Proof.
  split; [| reflexivity].
  apply (queue_length_always_zero
           [OpStart (Some 200); OpAddTask (Inputs.mk_task "t1" "a" 4 0);
            OpAddTask (Inputs.mk_task "t2" "b" 4 0)] Inputs.fresh_worker).
  reflexivity.
Defined.
